(** * test_matrix: the camera and view-matrix program, embedded in Rocq

    The repository holds four snapshots of one SDL/OpenGL program.  The
    last one (681 lines) contains the vector/matrix helpers
    ([vec3f_get_length], [vec3f_normalize], [vec3f_cross], [mat4f_product])
    and the free-look camera driven by the event loop of [main].  The first
    one (the top-level [main.c], 147 lines) only opens the two windows and
    runs an event loop.

    Number model.  The C type [float] is idealised as the real numbers [R]:
    [sqrtf], [sinf], [cosf] and [M_PI] are [sqrt], [sin], [cos] and [PI],
    and no rounding takes place ("exact arithmetic").  A division whose
    divisor is zero has no real value (IEEE gives an infinity or a NaN
    there), so division is partial and the code that divides lives in the
    option monad.  The integer fields of SDL events ([xrel], [yrel], key and
    button codes) are integers [Z]. *)

From Stdlib Require Import Reals Lra Lia ZArith List Bool.
From Stdlib Require String.
Import ListNotations.

Open Scope R_scope.

(** ** A small option monad for the code that may divide by zero *)

Definition bind {A B : Type} (m : option A) (f : A -> option B) : option B :=
  match m with
  | Some a => f a
  | None => None
  end.

Notation "x <- m ;; k" := (bind m (fun x => k))
  (at level 61, m at next level, right associativity).

(** [a / b] on [float]: no value when the divisor is zero. *)
Definition fdiv (a b : R) : option R :=
  if Req_dec_T b 0 then None else Some (a / b).

(** [for (int i = 0; i < n; ++i) body], threading the loop's state. *)
Definition for_loop {S : Type} (n : nat) (body : nat -> S -> S) (s : S) : S :=
  fold_left (fun acc i => body i acc) (seq 0 n) s.

(** ** Vectors and matrices *)

Module VecMat.

(** [typedef struct Vec3f { float value[3]; } Vec3f;] *)
Record Vec3f : Type := mkVec3f { value0 : R; value1 : R; value2 : R }.

(** [typedef struct Mat4f { float value[4][4]; } Mat4f;], row-major. *)
Definition Mat4f : Type := list (list R).

Fixpoint list_set {A : Type} (l : list A) (n : nat) (x : A) : list A :=
  match l, n with
  | [], _ => []
  | _ :: t, O => x :: t
  | h :: t, S n' => h :: list_set t n' x
  end.

(** [mat->value[i][j]] *)
Definition mat_get (m : Mat4f) (i j : nat) : R := nth j (nth i m []) 0.

(** [mat.value[i][j] = x] *)
Definition mat_set (m : Mat4f) (i j : nat) (x : R) : Mat4f :=
  list_set m i (list_set (nth i m []) j x).

Definition mat4f_zero : Mat4f := repeat (repeat 0 4%nat) 4%nat.

Definition vec3f_get_length (vec : Vec3f) : R :=
  sqrt (value0 vec * value0 vec + value1 vec * value1 vec + value2 vec * value2 vec).

Definition vec3f_normalize (vec : Vec3f) : option Vec3f :=
  let length := vec3f_get_length vec in
  x <- fdiv (value0 vec) length ;;
  y <- fdiv (value1 vec) length ;;
  z <- fdiv (value2 vec) length ;;
  Some (mkVec3f x y z).

Definition vec3f_cross (vec1 vec2 : Vec3f) : Vec3f :=
  mkVec3f
    (value1 vec1 * value2 vec2 - value2 vec1 * value1 vec2)
    (value2 vec1 * value0 vec2 - value0 vec1 * value2 vec2)
    (value0 vec1 * value1 vec2 - value1 vec1 * value0 vec2).

(** The three nested loops of [mat4f_product], writing into [result].  In the
    source [result] is an uninitialised local; every entry is assigned
    before it is read. *)
Definition mat4f_product_into (result : Mat4f) (mat1 mat2 : Mat4f) : Mat4f :=
  for_loop 4 (fun i result =>
    for_loop 4 (fun j result =>
      let result := mat_set result i j 0 in
      for_loop 4 (fun k result =>
        mat_set result i j
          (mat_get result i j + mat_get mat1 i k * mat_get mat2 k j))
        result)
      result)
    result.

Definition mat4f_product (mat1 mat2 : Mat4f) : Mat4f :=
  mat4f_product_into mat4f_zero mat1 mat2.

(** Specification-side notions (not in the source). *)

Definition sum_of_squares (v : Vec3f) : R :=
  value0 v * value0 v + value1 v * value1 v + value2 v * value2 v.

Definition is_4x4 (m : Mat4f) : Prop :=
  length m = 4%nat /\ Forall (fun row => length row = 4%nat) m.

Definition vec3f_dot (a b : Vec3f) : R :=
  value0 a * value0 b + value1 a * value1 b + value2 a * value2 b.

Definition vec3f_opp (a : Vec3f) : Vec3f :=
  mkVec3f (- value0 a) (- value1 a) (- value2 a).

(** [result[i][j] = sum over k < 4 of a[i][k] * b[k][j]], as the spec writes
    the product. *)
Definition row_by_column (a b : Mat4f) (i j : nat) : R :=
  fold_right Rplus 0 (map (fun k => mat_get a i k * mat_get b k j) (seq 0 4)).

Definition mat4f_tabulate (f : nat -> nat -> R) : Mat4f :=
  map (fun i => map (fun j => f i j) (seq 0 4)) (seq 0 4).

End VecMat.

(** ** The part of SDL the event loops look at *)

Module SDL.

(** [SDL_Event], by [event.type], with the fields the program reads:
    [event.key.keysym.sym], [event.button.button], [event.motion.xrel] and
    [event.motion.yrel].  [SDL_OTHER] stands for every event type no [case]
    of the program names. *)
Inductive Event : Type :=
| SDL_QUIT
| SDL_KEYDOWN (sym : Z)
| SDL_MOUSEBUTTONDOWN (button : Z)
| SDL_MOUSEBUTTONUP (button : Z)
| SDL_MOUSEMOTION (xrel yrel : Z)
| SDL_OTHER (type : Z).

(** Values of the SDL2 headers. *)
Definition SDLK_ESCAPE : Z := 27.
Definition SDL_BUTTON_LEFT : Z := 1.

(** The spec's "explicit quit signal": a window-close event or an
    escape-key press. *)
Definition is_quit_signal (event : Event) : bool :=
  match event with
  | SDL_QUIT => true
  | SDL_KEYDOWN sym => (sym =? SDLK_ESCAPE)%Z
  | _ => false
  end.

Definition is_escape_press (event : Event) : bool :=
  match event with
  | SDL_KEYDOWN sym => (sym =? SDLK_ESCAPE)%Z
  | _ => false
  end.

(** One iteration of [while (!quit)] receives the events that
    [SDL_PollEvent] hands out before it returns 0: a finite batch. *)
Definition Frames : Type := list (list Event).

Definition any_event (p : Event -> bool) (frames : Frames) : bool :=
  existsb (existsb p) frames.

Definition has_quit_signal (frames : Frames) : Prop :=
  exists events event,
    In events frames /\ In event events /\ is_quit_signal event = true.

End SDL.

(** ** The camera program (the 681-line snapshot) *)

Module Camera.
Import VecMat SDL.

(** The locals of [main] that the event loop reads and writes. *)
Record State : Type := mkState {
  camera_pos : Vec3f;
  camera_dir : Vec3f;
  camera_right : Vec3f;
  camera_up : Vec3f;
  yaw_deg : R;
  pitch_deg : R;
  look_at_matrix : Mat4f;
  is_lmb_pressed : bool;
  quit : bool
}.

Definition world_up : Vec3f := mkVec3f 0 1 0.

(** [mat1] of the two blocks that build the view matrix. *)
Definition rotation_matrix (R U D : Vec3f) : Mat4f :=
  [ [value0 R; value1 R; value2 R; 0];
    [value0 U; value1 U; value2 U; 0];
    [value0 D; value1 D; value2 D; 0];
    [0; 0; 0; 1] ].

(** [mat2] of the same blocks. *)
Definition translation_matrix (P : Vec3f) : Mat4f :=
  [ [1; 0; 0; - value0 P];
    [0; 1; 0; - value1 P];
    [0; 0; 1; - value2 P];
    [0; 0; 0; 1] ].

Definition build_look_at (R U D P : Vec3f) : Mat4f :=
  mat4f_product (rotation_matrix R U D) (translation_matrix P).

(** [main] from the declaration of [camera_pos] to [bool quit = false]. *)
Definition startup : option State :=
  let camera_pos := mkVec3f 0 0 3 in
  let camera_dir := mkVec3f 0 0 (-1) in
  let camera_right := vec3f_cross camera_dir world_up in
  camera_right <- vec3f_normalize camera_right ;;
  let camera_up := vec3f_cross camera_right camera_dir in
  let yaw_deg := 0 in
  let pitch_deg := 0 in
  let look_at_matrix := build_look_at camera_right camera_up camera_dir camera_pos in
  Some (mkState camera_pos camera_dir camera_right camera_up
          yaw_deg pitch_deg look_at_matrix false false).

(** The body of [case SDL_MOUSEMOTION] after the [is_lmb_pressed] test. *)
Definition drag (s : State) (xrel yrel : Z) : option State :=
  let yaw_deg := yaw_deg s + IZR xrel in
  let pitch_deg := pitch_deg s - IZR yrel in
  let pitch_deg :=
    if Rlt_dec pitch_deg (-89) then -89
    else if Rgt_dec pitch_deg 89 then 89
    else pitch_deg in
  let yaw_rad := yaw_deg * PI / 180 in
  let pitch_rad := pitch_deg * PI / 180 in
  let camera_dir :=
    mkVec3f (sin yaw_rad * cos pitch_rad)
            (sin pitch_rad)
            (- cos yaw_rad * cos pitch_rad) in
  camera_dir <- vec3f_normalize camera_dir ;;
  let camera_right := vec3f_cross camera_dir world_up in
  camera_right <- vec3f_normalize camera_right ;;
  let camera_up := vec3f_cross camera_right camera_dir in
  let look_at_matrix :=
    build_look_at camera_right camera_up camera_dir (camera_pos s) in
  Some (mkState (camera_pos s) camera_dir camera_right camera_up
          yaw_deg pitch_deg look_at_matrix (is_lmb_pressed s) (quit s)).

Definition set_quit (s : State) (b : bool) : State :=
  mkState (camera_pos s) (camera_dir s) (camera_right s) (camera_up s)
    (yaw_deg s) (pitch_deg s) (look_at_matrix s) (is_lmb_pressed s) b.

Definition set_is_lmb_pressed (s : State) (b : bool) : State :=
  mkState (camera_pos s) (camera_dir s) (camera_right s) (camera_up s)
    (yaw_deg s) (pitch_deg s) (look_at_matrix s) b (quit s).

(** [switch (event.type)] *)
Definition process_event (s : State) (event : Event) : option State :=
  match event with
  | SDL_QUIT => Some (set_quit s true)
  | SDL_KEYDOWN sym =>
      if (sym =? SDLK_ESCAPE)%Z then Some (set_quit s true) else Some s
  | SDL_MOUSEBUTTONDOWN button =>
      if (button =? SDL_BUTTON_LEFT)%Z then Some (set_is_lmb_pressed s true)
      else Some s
  | SDL_MOUSEBUTTONUP button =>
      if (button =? SDL_BUTTON_LEFT)%Z then Some (set_is_lmb_pressed s false)
      else Some s
  | SDL_MOUSEMOTION xrel yrel =>
      if negb (is_lmb_pressed s) then Some s else drag s xrel yrel
  | SDL_OTHER _ => Some s
  end.

(** [while (SDL_PollEvent(&event)) switch ...] over one batch. *)
Fixpoint poll_events (s : State) (events : list Event) : option State :=
  match events with
  | [] => Some s
  | event :: rest => s' <- process_event s event ;; poll_events s' rest
  end.

(** What a run over the given frames comes to: whether [while (!quit)] was
    left, the state then (or when the frames ran out), and the state drawn
    in each iteration, in order.  Each iteration uploads [look_at_matrix]
    with [glUniformMatrix4fv] and prints the camera state in the info
    window. *)
Record Run : Type := mkRun {
  exited : bool;
  final : State;
  rendered : list State
}.

Fixpoint main_loop (s : State) (frames : Frames) : option Run :=
  if quit s then Some (mkRun true s [])
  else
    match frames with
    | [] => Some (mkRun false s [])
    | events :: rest =>
        s' <- poll_events s events ;;
        r <- main_loop s' rest ;;
        Some (mkRun (exited r) (final r) (s' :: rendered r))
    end.

Definition main (frames : Frames) : option Run :=
  s <- startup ;; main_loop s frames.


(** A run of drag events: motion events while the left button is held. *)
Definition motions (deltas : list (Z * Z)) : list Event :=
  map (fun d => SDL_MOUSEMOTION (fst d) (snd d)) deltas.

(** Specification-side: the clamp and the spherical direction as the spec
    writes them, and the basis being mutually orthogonal. *)
Definition clamp (lo hi x : R) : R := Rmax lo (Rmin hi x).

Definition spherical (yaw pitch : R) : Vec3f :=
  mkVec3f (sin (yaw * PI / 180) * cos (pitch * PI / 180))
          (sin (pitch * PI / 180))
          (- (cos (yaw * PI / 180) * cos (pitch * PI / 180))).

Definition orthogonal_basis (s : State) : Prop :=
  vec3f_dot (camera_right s) (camera_up s) = 0 /\
  vec3f_dot (camera_right s) (camera_dir s) = 0 /\
  vec3f_dot (camera_up s) (camera_dir s) = 0.

Definition view_is_product (s : State) : Prop :=
  look_at_matrix s =
    mat4f_product
      (rotation_matrix (camera_right s) (camera_up s) (camera_dir s))
      (translation_matrix (camera_pos s)).

Definition pitch_in_range (s : State) : Prop := -89 <= pitch_deg s <= 89.

(** What holds of the camera whenever the loop looks at it. *)
Definition invariant (s : State) : Prop :=
  pitch_in_range s /\ orthogonal_basis s /\ view_is_product s.

(** The values [startup] comes to. *)
Definition initial_state : State :=
  let camera_pos := mkVec3f 0 0 3 in
  let camera_dir := mkVec3f 0 0 (-1) in
  let camera_right := mkVec3f 1 0 0 in
  let camera_up := mkVec3f 0 1 0 in
  mkState camera_pos camera_dir camera_right camera_up 0 0
    (build_look_at camera_right camera_up camera_dir camera_pos) false false.


(** A state in which the left button is held. *)
Definition held (s : State) : State := set_is_lmb_pressed s true.

End Camera.

(** ** The event loops of the earlier snapshots

    These programs have no camera: the only local the loop writes is
    [quit]. *)

Module QuitLoop.
Import SDL.

Section Loop.
Variable process_event : bool -> Event -> bool.

Definition poll_events (quit : bool) (events : list Event) : bool :=
  fold_left process_event events quit.

(** [Some n]: the loop was left after [n] iterations; [None]: it is still
    running when the given frames are used up. *)
Fixpoint main_loop (quit : bool) (frames : Frames) : option nat :=
  if quit then Some O
  else
    match frames with
    | [] => None
    | events :: rest =>
        option_map S (main_loop (poll_events quit events) rest)
    end.

End Loop.
End QuitLoop.

(** The top-level [main.c] (147 lines): the [switch] has the single case
    [SDL_KEYDOWN], with the single inner case [SDLK_ESCAPE]. *)
Module MainC.
Import SDL.

Definition process_event (quit : bool) (event : Event) : bool :=
  match event with
  | SDL_KEYDOWN sym => if (sym =? SDLK_ESCAPE)%Z then true else quit
  | _ => quit
  end.

Definition main (frames : Frames) : option nat :=
  QuitLoop.main_loop process_event false frames.

End MainC.

(** [src/main.c] (387 lines) and the 211-line snapshot: the [switch] has the
    cases [SDL_QUIT] and [SDL_KEYDOWN]/[SDLK_ESCAPE]. *)
Module SrcMainC.
Import SDL.

Definition process_event (quit : bool) (event : Event) : bool :=
  match event with
  | SDL_QUIT => true
  | SDL_KEYDOWN sym => if (sym =? SDLK_ESCAPE)%Z then true else quit
  | _ => quit
  end.

Definition main (frames : Frames) : option nat :=
  QuitLoop.main_loop process_event false frames.

End SrcMainC.

(** ** Further specification-side notions *)

Module Notions.
Import VecMat SDL Camera.

Definition vec3f_zero : Vec3f := mkVec3f 0 0 0.


Definition mat4f_identity : Mat4f :=
  [ [1; 0; 0; 0]; [0; 1; 0; 0]; [0; 0; 1; 0]; [0; 0; 0; 1] ].

(** The camera vectors as functions of the two angles (in degrees). *)
Definition right_of (yaw : R) : Vec3f :=
  mkVec3f (cos (yaw * PI / 180)) 0 (sin (yaw * PI / 180)).

Definition up_of (yaw pitch : R) : Vec3f :=
  mkVec3f (- (sin (yaw * PI / 180) * sin (pitch * PI / 180)))
          (cos (pitch * PI / 180))
          (cos (yaw * PI / 180) * sin (pitch * PI / 180)).

(** The state a drag leaves behind, given the new angles. *)
Definition posed (s : State) (yaw pitch : R) : State :=
  mkState (camera_pos s) (spherical yaw pitch) (right_of yaw) (up_of yaw pitch)
    yaw pitch
    (build_look_at (right_of yaw) (up_of yaw pitch) (spherical yaw pitch)
       (camera_pos s))
    (is_lmb_pressed s) (quit s).

(** The vectors and the view matrix agree with the stored angles. *)
Definition agrees_with_angles (s : State) : Prop :=
  -89 <= pitch_deg s <= 89 /\
  camera_dir s = spherical (yaw_deg s) (pitch_deg s) /\
  camera_right s = right_of (yaw_deg s) /\
  camera_up s = up_of (yaw_deg s) (pitch_deg s) /\
  look_at_matrix s =
    build_look_at (camera_right s) (camera_up s) (camera_dir s) (camera_pos s).

(** The view matrix written out. *)
Definition look_at_entries (R U D P : Vec3f) : Mat4f :=
  [ [value0 R; value1 R; value2 R; - vec3f_dot R P];
    [value0 U; value1 U; value2 U; - vec3f_dot U P];
    [value0 D; value1 D; value2 D; - vec3f_dot D P];
    [0; 0; 0; 1] ].

(** Index of the first frame that carries an event satisfying [p]. *)
Fixpoint first_frame (p : Event -> bool) (frames : Frames) : option nat :=
  match frames with
  | [] => None
  | events :: rest =>
      if existsb p events then Some O else option_map S (first_frame p rest)
  end.

End Notions.

Module LoopNotions.
Import VecMat SDL Camera.

Definition is_left_press (event : Event) : bool :=
  match event with
  | SDL_MOUSEBUTTONDOWN button => (button =? SDL_BUTTON_LEFT)%Z
  | _ => false
  end.

(** Everything of the state but the two flags. *)
Definition same_camera (s s' : State) : Prop :=
  camera_pos s' = camera_pos s /\ camera_dir s' = camera_dir s /\
  camera_right s' = camera_right s /\ camera_up s' = camera_up s /\
  yaw_deg s' = yaw_deg s /\ pitch_deg s' = pitch_deg s /\
  look_at_matrix s' = look_at_matrix s.

End LoopNotions.

(** ** The process: library calls, globals and shutdown (681-line snapshot)

    What [main], [get_absolute_path], [load_shader], [render_text] and
    [cleanup] do with the outside world.  The libraries are not part of the
    program: what each call returns is given by a [World].  The log lists,
    in order, the calls that create or destroy something or whose result
    decides a branch; calls that do neither ([SDL_GL_SetAttribute],
    [fseek], [ftell], [fread], [glShaderSource], [glCompileShader],
    [glAttachShader], [glLinkProgram], the drawing calls, [fputs] and
    [fprintf] to [stderr], ...) are left out, and so is the text that
    [render_text] draws.  Pointers and OpenGL names are integers, 0 being
    [NULL] and "no object". *)

Module Process.
Import Stdlib.Strings.String.
Import SDL.

Inductive Global : Type :=
| absolute_bin_dir | absolute_font_path | font
| main_window | gl_context
| vertex_shader | fragment_shader | shader_program
| vbo | ebo | vao
| info_window | renderer.

Definition Global_index (g : Global) : nat :=
  match g with
  | absolute_bin_dir => 0 | absolute_font_path => 1 | font => 2
  | main_window => 3 | gl_context => 4
  | vertex_shader => 5 | fragment_shader => 6 | shader_program => 7
  | vbo => 8 | ebo => 9 | vao => 10
  | info_window => 11 | renderer => 12
  end.

Definition Global_eqb (a b : Global) : bool :=
  Nat.eqb (Global_index a) (Global_index b).

Inductive Call : Type :=
| SDL_Init (result : Z)
| TTF_Init (result : Z)
| SDL_GetBasePath (result : Z)
| SDL_free (mem : Z)
| malloc (result : Z)
| free (ptr : Z)
| TTF_OpenFont (file : string) (result : Z)
| TTF_CloseFont (f : Z)
| SDL_CreateWindow (title : string) (result : Z)
| SDL_DestroyWindow (window : Z)
| SDL_GL_CreateContext (window : Z) (result : Z)
| SDL_GL_DeleteContext (context : Z)
| gladLoadGLLoader (result : Z)
| fopen (filename : string) (result : Z)
| fclose (stream : Z)
| glCreateShader (result : Z)
| glGetShaderiv_COMPILE_STATUS (shader : Z) (success : Z)
| glDeleteShader (shader : Z)
| glCreateProgram (result : Z)
| glGetProgramiv_LINK_STATUS (program : Z) (success : Z)
| glDeleteProgram (program : Z)
| glGenBuffers (name : Z)
| glDeleteBuffers (name : Z)
| glGenVertexArrays (name : Z)
| glDeleteVertexArrays (name : Z)
| SDL_CreateRenderer (window : Z) (result : Z)
| SDL_DestroyRenderer (r : Z)
| TTF_RenderUTF8_Blended_Wrapped (result : Z)
| SDL_FreeSurface (surface : Z)
| SDL_CreateTextureFromSurface (surface : Z) (result : Z)
| SDL_DestroyTexture (texture : Z)
| TTF_Quit
| SDL_Quit.

(** What the libraries answer: the value the n-th logged call that returns
    something returns (a status, a pointer or an object name), and the
    string [SDL_GetBasePath] points to when it succeeds. *)
Record World : Type := mkWorld {
  answer : nat -> Z;
  base_path : string
}.

Definition Globals : Type := Global -> Z.

Definition set_global (g : Global) (v : Z) (gl : Globals) : Globals :=
  fun g' => if Global_eqb g g' then v else gl g'.

(** The globals, the string [absolute_bin_dir] points to, the calls made so
    far and how many answers have been used. *)
Record St : Type := mkSt {
  globals : Globals;
  bin_dir_text : string;
  log : list Call;
  asked : nat
}.

Definition initial : St := mkSt (fun _ => 0%Z) EmptyString [] O.

Definition EXIT_SUCCESS : Z := 0.
Definition EXIT_FAILURE : Z := 1.

(** A computation either goes on with a value or is a [return] from
    [main]. *)
Inductive Result (A : Type) : Type :=
| Ok (a : A) (st : St)
| Exit (code : Z) (st : St).
Arguments Ok {A} a st.
Arguments Exit {A} code st.

Definition M (A : Type) : Type := St -> Result A.

Definition ret {A : Type} (a : A) : M A := fun st => Ok a st.

Definition andthen {A B : Type} (m : M A) (k : A -> M B) : M B :=
  fun st =>
    match m st with
    | Ok a st' => k a st'
    | Exit code st' => Exit code st'
    end.

Notation "x <-- m ;; k" := (andthen m (fun x => k))
  (at level 61, m at next level, right associativity).
Notation "m ;;; k" := (andthen m (fun _ => k))
  (at level 61, right associativity).

Definition exit {A : Type} (code : Z) : M A := fun st => Exit code st.

Definition emit (c : Call) : M unit :=
  fun st => Ok tt (mkSt (globals st) (bin_dir_text st) (log st ++ [c]) (asked st)).

Definition read (g : Global) : M Z := fun st => Ok (globals st g) st.

Definition assign (g : Global) (v : Z) : M unit :=
  fun st =>
    Ok tt (mkSt (set_global g v (globals st)) (bin_dir_text st) (log st) (asked st)).

Definition assign_bin_dir_text (text : string) : M unit :=
  fun st => Ok tt (mkSt (globals st) text (log st) (asked st)).

Definition read_bin_dir_text : M string := fun st => Ok (bin_dir_text st) st.

(** [snprintf(buffer, size, "%s%s", s1, s2)]: at most [size - 1] characters
    are written before the terminator. *)
Definition snprintf_s_s (size : nat) (s1 s2 : string) : string :=
  match size with
  | O => EmptyString
  | S n => substring 0 n (append s1 s2)
  end.

(** The window titles and the files named in [main]. *)
Definition title_main : string := "Main".
Definition title_info : string := "Info".
Definition font_ttf : string := "resources/fonts/IosevkaNerdFont-Regular.ttf".
Definition shader_vert : string := "resources/shaders/shader.vert".
Definition shader_frag : string := "resources/shaders/shader.frag".

Section WithWorld.
Variable w : World.

Definition ask : M Z :=
  fun st =>
    Ok (answer w (asked st))
       (mkSt (globals st) (bin_dir_text st) (log st) (S (asked st))).

(** [get_absolute_path]: the pointer returned and the string written to
    it. *)
Definition get_absolute_path (relative_path : string) : M (Z * string) :=
  bin_dir <-- read_bin_dir_text ;;
  let absolute_path_size :=
    (String.length bin_dir + String.length relative_path + 1)%nat in
  absolute_path <-- ask ;;
  emit (malloc absolute_path) ;;;
  if (absolute_path =? 0)%Z then ret (0%Z, EmptyString)
  else ret (absolute_path,
            snprintf_s_s absolute_path_size bin_dir relative_path).

Definition load_shader (relative_path : string) : M Z :=
  path <-- get_absolute_path relative_path ;;
  let absolute_shader_path := fst path in
  if (absolute_shader_path =? 0)%Z then ret 0%Z
  else
    shader_file <-- ask ;;
    emit (fopen (snd path) shader_file) ;;;
    emit (free absolute_shader_path) ;;;
    if (shader_file =? 0)%Z then ret 0%Z
    else
      shader_code <-- ask ;;
      emit (malloc shader_code) ;;;
      if (shader_code =? 0)%Z then emit (fclose shader_file) ;;; ret 0%Z
      else
        emit (fclose shader_file) ;;;
        shader <-- ask ;;
        emit (glCreateShader shader) ;;;
        success <-- ask ;;
        emit (glGetShaderiv_COMPILE_STATUS shader success) ;;;
        if (success =? 0)%Z then emit (glDeleteShader shader) ;;; ret 0%Z
        else ret shader.

Definition render_text : M bool :=
  text_surface <-- ask ;;
  emit (TTF_RenderUTF8_Blended_Wrapped text_surface) ;;;
  if (text_surface =? 0)%Z then ret false
  else
    text_texture <-- ask ;;
    emit (SDL_CreateTextureFromSurface text_surface text_texture) ;;;
    emit (SDL_FreeSurface text_surface) ;;;
    if (text_texture =? 0)%Z then ret false
    else emit (SDL_DestroyTexture text_texture) ;;; ret true.

(** The twelve [render_text_vec3f], [render_text_float] and
    [render_text_mat4f] calls of one iteration; each formats its text and
    calls [render_text], and [main] ignores what they return. *)
Fixpoint render_texts (n : nat) : M unit :=
  match n with
  | O => ret tt
  | S n' => render_text ;;; render_texts n'
  end.

Fixpoint render_frames (n : nat) : M unit :=
  match n with
  | O => ret tt
  | S n' => render_texts 12 ;;; render_frames n'
  end.

(** [main] up to [bool quit = false]. *)
Definition initialise : M unit :=
  r <-- ask ;; emit (SDL_Init r) ;;;
  if (r <? 0)%Z then exit EXIT_FAILURE else
  r <-- ask ;; emit (TTF_Init r) ;;;
  if (r <? 0)%Z then exit EXIT_FAILURE else
  p <-- ask ;; emit (SDL_GetBasePath p) ;;;
  assign absolute_bin_dir p ;;; assign_bin_dir_text (base_path w) ;;;
  v <-- read absolute_bin_dir ;;
  if (v =? 0)%Z then exit EXIT_FAILURE else
  path <-- get_absolute_path font_ttf ;;
  assign absolute_font_path (fst path) ;;;
  v <-- read absolute_font_path ;;
  if (v =? 0)%Z then exit EXIT_FAILURE else
  f <-- ask ;; emit (TTF_OpenFont (snd path) f) ;;;
  assign font f ;;;
  v <-- read font ;;
  if (v =? 0)%Z then exit EXIT_FAILURE else
  win <-- ask ;; emit (SDL_CreateWindow title_main win) ;;;
  assign main_window win ;;;
  v <-- read main_window ;;
  if (v =? 0)%Z then exit EXIT_FAILURE else
  win <-- read main_window ;;
  ctx <-- ask ;; emit (SDL_GL_CreateContext win ctx) ;;;
  assign gl_context ctx ;;;
  v <-- read gl_context ;;
  if (v =? 0)%Z then exit EXIT_FAILURE else
  loaded <-- ask ;; emit (gladLoadGLLoader loaded) ;;;
  if (loaded =? 0)%Z then exit EXIT_FAILURE else
  shader <-- load_shader shader_vert ;;
  assign vertex_shader shader ;;;
  v <-- read vertex_shader ;;
  if (v =? 0)%Z then exit EXIT_FAILURE else
  shader <-- load_shader shader_frag ;;
  assign fragment_shader shader ;;;
  v <-- read fragment_shader ;;
  if (v =? 0)%Z then exit EXIT_FAILURE else
  prog <-- ask ;; emit (glCreateProgram prog) ;;;
  assign shader_program prog ;;;
  v <-- read fragment_shader ;;
  emit (glDeleteShader v) ;;; assign fragment_shader 0%Z ;;;
  v <-- read vertex_shader ;;
  emit (glDeleteShader v) ;;; assign vertex_shader 0%Z ;;;
  prog <-- read shader_program ;;
  success <-- ask ;; emit (glGetProgramiv_LINK_STATUS prog success) ;;;
  if (success =? 0)%Z then exit EXIT_FAILURE else
  name <-- ask ;; emit (glGenBuffers name) ;;; assign vbo name ;;;
  name <-- ask ;; emit (glGenBuffers name) ;;; assign ebo name ;;;
  name <-- ask ;; emit (glGenVertexArrays name) ;;; assign vao name ;;;
  win <-- ask ;; emit (SDL_CreateWindow title_info win) ;;;
  assign info_window win ;;;
  v <-- read info_window ;;
  if (v =? 0)%Z then exit EXIT_FAILURE else
  win <-- read info_window ;;
  rd <-- ask ;; emit (SDL_CreateRenderer win rd) ;;;
  assign renderer rd ;;;
  v <-- read renderer ;;
  if (v =? 0)%Z then exit EXIT_FAILURE else
  ret tt.

(** [main]: initialisation, then the loop over the given frames (the
    camera's part of it is [Camera.main]; here only the text drawn in each
    iteration shows), then [return EXIT_SUCCESS] if the loop was left.
    [Ok]: the frames are used up and the loop is still running. *)
Definition main (frames : Frames) : M unit :=
  initialise ;;;
  match Camera.main frames with
  | Some r =>
      render_frames (List.length (Camera.rendered r)) ;;;
      if Camera.exited r then exit EXIT_SUCCESS else ret tt
  | None => ret tt
  end.

End WithWorld.

Definition release_if_set (v : Z) (c : Call) : list Call :=
  if (v =? 0)%Z then [] else [c].

(** [cleanup], registered with [atexit]: the calls it makes, given the
    globals. *)
Definition cleanup (gl : Globals) : list Call :=
  release_if_set (gl renderer) (SDL_DestroyRenderer (gl renderer))
  ++ release_if_set (gl info_window) (SDL_DestroyWindow (gl info_window))
  ++ release_if_set (gl vao) (glDeleteVertexArrays (gl vao))
  ++ release_if_set (gl ebo) (glDeleteBuffers (gl ebo))
  ++ release_if_set (gl vbo) (glDeleteBuffers (gl vbo))
  ++ release_if_set (gl shader_program) (glDeleteProgram (gl shader_program))
  ++ release_if_set (gl fragment_shader) (glDeleteShader (gl fragment_shader))
  ++ release_if_set (gl vertex_shader) (glDeleteShader (gl vertex_shader))
  ++ release_if_set (gl gl_context) (SDL_GL_DeleteContext (gl gl_context))
  ++ release_if_set (gl main_window) (SDL_DestroyWindow (gl main_window))
  ++ release_if_set (gl font) (TTF_CloseFont (gl font))
  ++ [free (gl absolute_font_path)]
  ++ release_if_set (gl absolute_bin_dir) (SDL_free (gl absolute_bin_dir))
  ++ [TTF_Quit; SDL_Quit].

(** A whole run: the exit code, if [main] returned, and every call made,
    those of [cleanup] at exit included. *)
Definition run (w : World) (frames : Frames) : option Z * list Call :=
  match main w frames initial with
  | Ok _ st => (None, log st)
  | Exit code st => (Some code, log st ++ cleanup (globals st))
  end.

(** Specification-side: what a call creates and what it destroys. *)
Inductive Kind : Type :=
| KBasePath | KHeap | KFont | KWindow | KContext | KFile | KShader
| KProgram | KBuffer | KVertexArray | KRenderer | KSurface | KTexture.

Definition nonnull (k : Kind) (h : Z) : list (Kind * Z) :=
  if (h =? 0)%Z then [] else [(k, h)].

Definition creates (c : Call) : list (Kind * Z) :=
  match c with
  | SDL_GetBasePath h => nonnull KBasePath h
  | malloc h => nonnull KHeap h
  | TTF_OpenFont _ h => nonnull KFont h
  | SDL_CreateWindow _ h => nonnull KWindow h
  | SDL_GL_CreateContext _ h => nonnull KContext h
  | fopen _ h => nonnull KFile h
  | glCreateShader h => nonnull KShader h
  | glCreateProgram h => nonnull KProgram h
  | glGenBuffers h => nonnull KBuffer h
  | glGenVertexArrays h => nonnull KVertexArray h
  | SDL_CreateRenderer _ h => nonnull KRenderer h
  | TTF_RenderUTF8_Blended_Wrapped h => nonnull KSurface h
  | SDL_CreateTextureFromSurface _ h => nonnull KTexture h
  | _ => []
  end.

Definition destroys (c : Call) : list (Kind * Z) :=
  match c with
  | SDL_free h => nonnull KBasePath h
  | free h => nonnull KHeap h
  | TTF_CloseFont h => nonnull KFont h
  | SDL_DestroyWindow h => nonnull KWindow h
  | SDL_GL_DeleteContext h => nonnull KContext h
  | fclose h => nonnull KFile h
  | glDeleteShader h => nonnull KShader h
  | glDeleteProgram h => nonnull KProgram h
  | glDeleteBuffers h => nonnull KBuffer h
  | glDeleteVertexArrays h => nonnull KVertexArray h
  | SDL_DestroyRenderer h => nonnull KRenderer h
  | SDL_FreeSurface h => nonnull KSurface h
  | SDL_DestroyTexture h => nonnull KTexture h
  | _ => []
  end.

Definition created (calls : list Call) : list (Kind * Z) :=
  flat_map creates calls.

Definition destroyed (calls : list Call) : list (Kind * Z) :=
  flat_map destroys calls.

Definition kind_of (g : Global) : Kind :=
  match g with
  | absolute_bin_dir => KBasePath
  | absolute_font_path => KHeap
  | font => KFont
  | main_window | info_window => KWindow
  | gl_context => KContext
  | vertex_shader | fragment_shader => KShader
  | shader_program => KProgram
  | vbo | ebo => KBuffer
  | vao => KVertexArray
  | renderer => KRenderer
  end.

(** The order in which [cleanup] goes through the globals. *)
Definition cleanup_order : list Global :=
  [renderer; info_window; vao; ebo; vbo; shader_program; fragment_shader;
   vertex_shader; gl_context; main_window; font; absolute_font_path;
   absolute_bin_dir].

(** What the globals hold on to. *)
Definition held_by (gl : Globals) (gs : list Global) : list (Kind * Z) :=
  flat_map (fun g => nonnull (kind_of g) (gl g)) gs.

Definition files_opened (calls : list Call) : list string :=
  flat_map (fun c =>
              match c with
              | TTF_OpenFont file _ => [file]
              | fopen file _ => [file]
              | _ => []
              end) calls.

End Process.

Module ProcessNotions.
Import Stdlib.Strings.String.
Import Process.

Definition resource_eq_dec (x y : Kind * Z) : {x = y} + {x <> y}.
Proof. decide equality; [apply Z.eq_dec | decide equality]. Defined.

Definition count (x : Kind * Z) (l : list (Kind * Z)) : nat :=
  count_occ resource_eq_dec l x.

(** Nothing is destroyed more often than it was created, everything but
    heap blocks is destroyed as often as it was created, and at most [n]
    things (heap blocks, then) are left. *)
Definition balanced_but (n : nat) (calls : list Call) : Prop :=
  (forall x, (count x (destroyed calls) <= count x (created calls))%nat) /\
  (forall x, fst x <> KHeap ->
             count x (created calls) = count x (destroyed calls)) /\
  (List.length (created calls) <= List.length (destroyed calls) + n)%nat.

Definition draws (c : Call) : bool :=
  match c with
  | TTF_RenderUTF8_Blended_Wrapped _ => true
  | _ => false
  end.

(** [st'] comes from [st] by the further calls [delta]; the globals are
    untouched. *)
Definition extends (st st' : St) (delta : list Call) : Prop :=
  globals st' = globals st /\ bin_dir_text st' = bin_dir_text st /\
  log st' = log st ++ delta.

(** What [load_shader] leaves behind: everything it created it destroyed,
    but the shader it returns and at most one heap block. *)
Definition shader_loaded (text : String.string) (v : Z) (delta : list Call)
    : Prop :=
  (forall x, (count x (destroyed delta) + count x (nonnull KShader v)
              <= count x (created delta))%nat) /\
  (forall x, fst x <> KHeap ->
     count x (created delta)
     = (count x (destroyed delta) + count x (nonnull KShader v))%nat) /\
  (List.length (created delta)
   <= List.length (destroyed delta) + 1 + List.length (nonnull KShader v))%nat /\
  (v <> 0%Z ->
   List.length (created delta) = (List.length (destroyed delta) + 2)%nat /\
   files_opened delta = [text]) /\
  (files_opened delta = [] \/ files_opened delta = [text]) /\
  existsb draws delta = false.

(** Calls that create nothing that they do not destroy, and open no
    file. *)
Definition self_contained (delta : list Call) : Prop :=
  (forall x, count x (created delta) = count x (destroyed delta)) /\
  List.length (created delta) = List.length (destroyed delta) /\
  files_opened delta = [].

(** The three files the program opens. *)
Definition program_files (w : World) : list String.string :=
  map (String.append (base_path w)) [font_ttf; shader_vert; shader_frag].


(** What holds whenever [main] returns or enters its loop: if [cleanup]
    ran now, the books would balance but for two heap blocks; the files
    opened so far are the first of the program's files; nothing was drawn. *)
Definition sound_end (w : World) (st : St) : Prop :=
  balanced_but 2 (log st ++ cleanup (globals st)) /\
  (exists n, files_opened (log st) = firstn n (program_files w)) /\
  existsb draws (log st) = false.

(** A world in which everything works until the vertex shader is
    compiled. *)
Definition example_world : World :=
  mkWorld (fun n => if (n <? 11)%nat then Z.of_nat (S n) else 0%Z) "/opt/app/".

End ProcessNotions.

(** * Properties *)

Import VecMat SDL.

(** ** Division and the option monad *)

Lemma fdiv_some (a b : R) : b <> 0 -> fdiv a b = Some (a / b).
Proof.
  intros Hb. unfold fdiv. destruct (Req_dec_T b 0) as [E | _].
  - contradiction.
  - reflexivity.
Qed.

Lemma fdiv_zero (a b : R) : b = 0 -> fdiv a b = None.
Proof.
  intros Hb. unfold fdiv. destruct (Req_dec_T b 0) as [_ | N].
  - reflexivity.
  - contradiction.
Qed.

(** ** Length and normalisation *)

Lemma sum_of_squares_nonneg (v : Vec3f) : 0 <= sum_of_squares v.
Proof. unfold sum_of_squares. nra. Qed.

Lemma length_squared (v : Vec3f) :
  vec3f_get_length v * vec3f_get_length v = sum_of_squares v.
Proof. apply sqrt_sqrt, sum_of_squares_nonneg. Qed.

Lemma length_of_unit_sum (v : Vec3f) :
  sum_of_squares v = 1 -> vec3f_get_length v = 1.
Proof.
  intros H. unfold vec3f_get_length. fold (sum_of_squares v).
  rewrite H. apply sqrt_1.
Qed.

Lemma normalize_some (v : Vec3f) :
  vec3f_get_length v <> 0 ->
  vec3f_normalize v =
    Some (mkVec3f (value0 v / vec3f_get_length v)
                  (value1 v / vec3f_get_length v)
                  (value2 v / vec3f_get_length v)).
Proof.
  intros H. unfold vec3f_normalize.
  rewrite !(fdiv_some _ _ H). reflexivity.
Qed.

Lemma normalize_of_unit (v : Vec3f) :
  vec3f_get_length v = 1 -> vec3f_normalize v = Some v.
Proof.
  intros H. rewrite normalize_some by lra. rewrite H.
  destruct v as [x y z]; simpl. f_equal. f_equal; field.
Qed.

Lemma scaled_length (v : Vec3f) (l : R) :
  l <> 0 -> l * l = sum_of_squares v ->
  vec3f_get_length (mkVec3f (value0 v / l) (value1 v / l) (value2 v / l)) = 1.
Proof.
  intros Hl Hsq. apply length_of_unit_sum.
  unfold sum_of_squares in *. simpl.
  replace (value0 v / l * (value0 v / l) + value1 v / l * (value1 v / l)
           + value2 v / l * (value2 v / l))
    with ((value0 v * value0 v + value1 v * value1 v + value2 v * value2 v)
          / (l * l)) by (field; exact Hl).
  rewrite <- Hsq. field. exact Hl.
Qed.

(** C6. For every vector whose length is not zero, [vec3f_normalize] yields a
    vector of length exactly 1; for a vector of length zero the division has
    no value, and the function makes no test of its own: the result is
    undefined ([None]). *)
Theorem normalize_unit_length (v : Vec3f) :
  (vec3f_get_length v <> 0 ->
   exists u, vec3f_normalize v = Some u /\ vec3f_get_length u = 1) /\
  (vec3f_get_length v = 0 -> vec3f_normalize v = None).
Proof.
  split.
  - intros H. eexists. split.
    + apply normalize_some, H.
    + apply scaled_length; [exact H | apply length_squared].
  - intros H. unfold vec3f_normalize. rewrite (fdiv_zero _ _ H). reflexivity.
Qed.

Lemma length_3_4_0 : vec3f_get_length (mkVec3f 3 4 0) = 5.
Proof.
  unfold vec3f_get_length. simpl.
  replace (3 * 3 + 4 * 4 + 0 * 0) with (5 * 5) by ring.
  apply sqrt_square. lra.
Qed.

Lemma normalize_unit_length_witness :
  (exists u, vec3f_normalize (mkVec3f 3 4 0) = Some u /\ vec3f_get_length u = 1) /\
  vec3f_normalize (mkVec3f 0 0 0) = None.
Proof.
  split.
  - apply (proj1 (normalize_unit_length (mkVec3f 3 4 0))).
    rewrite length_3_4_0. lra.
  - apply (proj2 (normalize_unit_length (mkVec3f 0 0 0))).
    unfold vec3f_get_length. simpl.
    replace (0 * 0 + 0 * 0 + 0 * 0) with 0 by ring. apply sqrt_0.
Defined.

(** ** Cross product *)

(** C8. The cross product is anti-commutative: [cross a b = - cross b a]. *)
Theorem cross_anticommutative (a b : Vec3f) :
  vec3f_cross a b = vec3f_opp (vec3f_cross b a).
Proof.
  unfold vec3f_cross, vec3f_opp. simpl. f_equal; ring.
Qed.

Lemma cross_orthogonal_left (a b : Vec3f) : vec3f_dot (vec3f_cross a b) a = 0.
Proof. unfold vec3f_dot, vec3f_cross. simpl. ring. Qed.

Lemma cross_orthogonal_right (a b : Vec3f) : vec3f_dot (vec3f_cross a b) b = 0.
Proof. unfold vec3f_dot, vec3f_cross. simpl. ring. Qed.

Lemma dot_comm (a b : Vec3f) : vec3f_dot a b = vec3f_dot b a.
Proof. unfold vec3f_dot. ring. Qed.

Lemma normalize_inv (v u : Vec3f) :
  vec3f_normalize v = Some u ->
  vec3f_get_length v <> 0 /\
  u = mkVec3f (value0 v / vec3f_get_length v)
              (value1 v / vec3f_get_length v)
              (value2 v / vec3f_get_length v).
Proof.
  intros H. destruct (Req_dec_T (vec3f_get_length v) 0) as [Z | NZ].
  - unfold vec3f_normalize in H. rewrite (fdiv_zero _ _ Z) in H. discriminate.
  - split; [exact NZ |]. rewrite (normalize_some _ NZ) in H. congruence.
Qed.

Lemma normalize_dot (v u w : Vec3f) :
  vec3f_normalize v = Some u -> vec3f_dot v w = 0 -> vec3f_dot u w = 0.
Proof.
  intros H Hdot. destruct (normalize_inv _ _ H) as [NZ ->].
  unfold vec3f_dot in *. simpl.
  replace (value0 v / vec3f_get_length v * value0 w
           + value1 v / vec3f_get_length v * value1 w
           + value2 v / vec3f_get_length v * value2 w)
    with ((value0 v * value0 w + value1 v * value1 w + value2 v * value2 w)
          / vec3f_get_length v) by (field; exact NZ).
  rewrite Hdot. field. exact NZ.
Qed.

(** ** The matrix product *)

Lemma mat4f_product_entries (a b : Mat4f) :
  mat4f_product a b = mat4f_tabulate (row_by_column a b).
Proof.
  unfold mat4f_product, mat4f_product_into, mat4f_tabulate, row_by_column.
  remember (mat_get a) as fa. remember (mat_get b) as fb.
  unfold for_loop. cbn.
  repeat (f_equal; try ring).
Qed.

Lemma length_4 {A : Type} (l : list A) :
  length l = 4%nat -> exists a b c d, l = [a; b; c; d].
Proof.
  destruct l as [|a [|b [|c [|d [|e l]]]]]; simpl; intros H; try discriminate.
  now exists a, b, c, d.
Qed.

(** What the uninitialised [result] holds on entry does not matter. *)
Lemma mat4f_product_into_any (result a b : Mat4f) :
  is_4x4 result -> mat4f_product_into result a b = mat4f_product a b.
Proof.
  intros [Hlen Hrows].
  destruct (length_4 _ Hlen) as (r0 & r1 & r2 & r3 & ->).
  inversion_clear Hrows as [|? ? H0 Hrows1].
  inversion_clear Hrows1 as [|? ? H1 Hrows2].
  inversion_clear Hrows2 as [|? ? H2 Hrows3].
  inversion_clear Hrows3 as [|? ? H3 _].
  destruct (length_4 _ H0) as (? & ? & ? & ? & ->).
  destruct (length_4 _ H1) as (? & ? & ? & ? & ->).
  destruct (length_4 _ H2) as (? & ? & ? & ? & ->).
  destruct (length_4 _ H3) as (? & ? & ? & ? & ->).
  unfold mat4f_product, mat4f_product_into.
  remember (mat_get a) as fa. remember (mat_get b) as fb.
  unfold for_loop. cbn. reflexivity.
Qed.

(** ** The camera *)

Import Camera.

Lemma spherical_unit (y p : R) :
  sum_of_squares (mkVec3f (sin y * cos p) (sin p) (- cos y * cos p)) = 1.
Proof.
  unfold sum_of_squares. simpl.
  pose proof (sin2_cos2 y) as Hy. pose proof (sin2_cos2 p) as Hp.
  unfold Rsqr in *. nra.
Qed.

Lemma clamped_pitch_range (x : R) :
  let p := if Rlt_dec x (-89) then -89
           else if Rgt_dec x 89 then 89 else x in
  p = clamp (-89) 89 x /\ -89 <= p <= 89.
Proof.
  cbv zeta. unfold clamp, Rmax, Rmin.
  destruct (Rlt_dec x (-89)), (Rgt_dec x 89);
    repeat (destruct (Rle_dec _ _)); lra.
Qed.

Lemma cos_pitch_pos (p : R) : -89 <= p <= 89 -> 0 < cos (p * PI / 180).
Proof.
  intros [Hlo Hhi]. pose proof PI_RGT_0 as Hpi.
  apply cos_gt_0; nra.
Qed.

Lemma cross_world_up_length (d : Vec3f) (c : R) :
  0 < c -> value2 d * value2 d + value0 d * value0 d = c * c ->
  vec3f_get_length (vec3f_cross d world_up) = c.
Proof.
  intros Hc Hsq. unfold vec3f_get_length, vec3f_cross, world_up. simpl.
  replace ((value1 d * 0 - value2 d * 1) * (value1 d * 0 - value2 d * 1)
           + (value2 d * 0 - value0 d * 0) * (value2 d * 0 - value0 d * 0)
           + (value0 d * 1 - value1 d * 0) * (value0 d * 1 - value1 d * 0))
    with (c * c) by (rewrite <- Hsq; ring).
  apply sqrt_square. lra.
Qed.

(** What one drag update comes to, from any state: it never divides by
    zero, because the clamped pitch keeps [cos pitch] positive. *)
Lemma drag_spec (s : State) (xrel yrel : Z) :
  exists s',
    drag s xrel yrel = Some s' /\
    yaw_deg s' = yaw_deg s + IZR xrel /\
    pitch_deg s' = clamp (-89) 89 (pitch_deg s - IZR yrel) /\
    -89 <= pitch_deg s' <= 89 /\
    camera_dir s' = spherical (yaw_deg s') (pitch_deg s') /\
    vec3f_normalize (vec3f_cross (camera_dir s') world_up)
      = Some (camera_right s') /\
    camera_up s' = vec3f_cross (camera_right s') (camera_dir s') /\
    camera_pos s' = camera_pos s /\
    view_is_product s' /\
    is_lmb_pressed s' = is_lmb_pressed s /\
    quit s' = quit s.
Proof.
  unfold drag.
  destruct (clamped_pitch_range (pitch_deg s - IZR yrel)) as [Hclamp Hrange].
  cbv zeta in Hclamp, Hrange.
  set (p := if Rlt_dec (pitch_deg s - IZR yrel) (-89) then -89
            else if Rgt_dec (pitch_deg s - IZR yrel) 89 then 89
            else pitch_deg s - IZR yrel) in *.
  set (y := yaw_deg s + IZR xrel).
  set (d := mkVec3f (sin (y * PI / 180) * cos (p * PI / 180))
                    (sin (p * PI / 180))
                    (- cos (y * PI / 180) * cos (p * PI / 180))).
  assert (Hd : vec3f_normalize d = Some d).
  { apply normalize_of_unit, length_of_unit_sum, spherical_unit. }
  rewrite Hd. cbn [bind].
  assert (Hlen : vec3f_get_length (vec3f_cross d world_up) = cos (p * PI / 180)).
  { apply cross_world_up_length.
    - apply cos_pitch_pos, Hrange.
    - unfold d. simpl. pose proof (sin2_cos2 (y * PI / 180)) as H.
      unfold Rsqr in H. nra. }
  assert (Hnz : vec3f_get_length (vec3f_cross d world_up) <> 0).
  { rewrite Hlen. pose proof (cos_pitch_pos p Hrange). lra. }
  rewrite (normalize_some _ Hnz). cbn [bind].
  eexists. split; [reflexivity |].
  unfold view_is_product, build_look_at.
  cbn [yaw_deg pitch_deg camera_dir camera_right camera_up camera_pos
       look_at_matrix is_lmb_pressed quit].
  repeat split; try reflexivity; try tauto; try apply Hrange.
  - unfold d, spherical. f_equal. ring.
  - apply normalize_some, Hnz.
Qed.


Lemma drag_invariant (s : State) (xrel yrel : Z) :
  exists s',
    drag s xrel yrel = Some s' /\ invariant s' /\
    is_lmb_pressed s' = is_lmb_pressed s /\ quit s' = quit s.
Proof.
  destruct (drag_spec s xrel yrel)
    as (s' & Hs' & _ & _ & Hrange & _ & Hright & Hup & _ & Hview & Hlmb & Hquit).
  exists s'. repeat split; try assumption; try apply Hrange.
  - rewrite Hup, dot_comm. apply cross_orthogonal_left.
  - apply (normalize_dot _ _ _ Hright), cross_orthogonal_left.
  - rewrite Hup. apply cross_orthogonal_right.
Qed.

Lemma startup_ok : startup = Some initial_state.
Proof.
  unfold startup.
  assert (Hc : vec3f_cross (mkVec3f 0 0 (-1)) world_up = mkVec3f 1 0 0).
  { unfold vec3f_cross, world_up. simpl. f_equal; ring. }
  rewrite Hc.
  assert (Hn : vec3f_normalize (mkVec3f 1 0 0) = Some (mkVec3f 1 0 0)).
  { apply normalize_of_unit, length_of_unit_sum.
    unfold sum_of_squares. simpl. ring. }
  rewrite Hn. cbn [bind].
  assert (Hu : vec3f_cross (mkVec3f 1 0 0) (mkVec3f 0 0 (-1)) = mkVec3f 0 1 0).
  { unfold vec3f_cross. simpl. f_equal; ring. }
  rewrite Hu. reflexivity.
Qed.

Lemma initial_state_invariant : invariant initial_state.
Proof.
  unfold invariant, pitch_in_range, orthogonal_basis, view_is_product,
    vec3f_dot, initial_state. simpl.
  repeat split; try lra; reflexivity.
Qed.

Lemma invariant_set_quit (s : State) (b : bool) :
  invariant s -> invariant (set_quit s b).
Proof. destruct s. exact (fun H => H). Qed.

Lemma invariant_set_is_lmb_pressed (s : State) (b : bool) :
  invariant s -> invariant (set_is_lmb_pressed s b).
Proof. destruct s. exact (fun H => H). Qed.

(** Every event is processed without dividing by zero, keeps the invariant,
    and sets [quit] exactly on a quit signal. *)
Lemma process_event_invariant (s : State) (event : Event) :
  invariant s ->
  exists s',
    process_event s event = Some s' /\ invariant s' /\
    quit s' = quit s || is_quit_signal event.
Proof.
  intros Hinv. destruct event as [| sym | button | button | xrel yrel | ty];
    simpl.
  - exists (set_quit s true). repeat split; try apply Hinv.
    destruct s; simpl. now rewrite orb_true_r.
  - destruct (sym =? SDLK_ESCAPE)%Z.
    + exists (set_quit s true). repeat split; try apply Hinv.
      destruct s; simpl. now rewrite orb_true_r.
    + exists s. repeat split; try apply Hinv. now rewrite orb_false_r.
  - destruct (button =? SDL_BUTTON_LEFT)%Z.
    + exists (set_is_lmb_pressed s true). repeat split; try apply Hinv.
      destruct s; simpl. now rewrite orb_false_r.
    + exists s. repeat split; try apply Hinv. now rewrite orb_false_r.
  - destruct (button =? SDL_BUTTON_LEFT)%Z.
    + exists (set_is_lmb_pressed s false). repeat split; try apply Hinv.
      destruct s; simpl. now rewrite orb_false_r.
    + exists s. repeat split; try apply Hinv. now rewrite orb_false_r.
  - destruct (is_lmb_pressed s); simpl.
    + destruct (drag_invariant s xrel yrel) as (s' & Hs' & Hinv' & _ & Hq).
      exists s'. repeat split; try assumption; try apply Hinv'.
      now rewrite Hq, orb_false_r.
    + exists s. repeat split; try apply Hinv. now rewrite orb_false_r.
  - exists s. repeat split; try apply Hinv. now rewrite orb_false_r.
Qed.

Lemma poll_events_invariant (events : list Event) :
  forall s, invariant s ->
  exists s',
    poll_events s events = Some s' /\ invariant s' /\
    quit s' = quit s || existsb is_quit_signal events.
Proof.
  induction events as [| event rest IH]; intros s Hinv; simpl.
  - exists s. repeat split; try apply Hinv. now rewrite orb_false_r.
  - destruct (process_event_invariant s event Hinv) as (s1 & H1 & Hinv1 & Hq1).
    rewrite H1. cbn [bind].
    destruct (IH s1 Hinv1) as (s2 & H2 & Hinv2 & Hq2).
    exists s2. repeat split; try assumption; try apply Hinv2.
    now rewrite Hq2, Hq1, orb_assoc.
Qed.

Lemma main_loop_quit (s : State) (frames : Frames) :
  quit s = true -> main_loop s frames = Some (mkRun true s []).
Proof. intros H. destruct frames; simpl; now rewrite H. Qed.

Lemma main_loop_invariant (frames : Frames) :
  forall s, invariant s -> quit s = false ->
  exists r,
    main_loop s frames = Some r /\
    Forall invariant (rendered r) /\
    exited r = any_event is_quit_signal frames.
Proof.
  induction frames as [| events rest IH]; intros s Hinv Hq; simpl; rewrite Hq.
  - eexists. repeat split. constructor.
  - destruct (poll_events_invariant events s Hinv) as (s1 & H1 & Hinv1 & Hq1).
    rewrite H1. cbn [bind]. rewrite Hq in Hq1. simpl in Hq1.
    destruct (existsb is_quit_signal events) eqn:Hsig.
    + rewrite (main_loop_quit _ _ Hq1). cbn [bind]. eexists.
      repeat split. simpl. constructor; [exact Hinv1 | constructor].
    + destruct (IH s1 Hinv1 Hq1) as (r & Hr & Hall & Hex).
      rewrite Hr. cbn [bind]. eexists. repeat split; simpl.
      * constructor; assumption.
      * exact Hex.
Qed.

(** While no quit signal arrives, every frame is drawn once. *)
Lemma main_loop_renders_each_frame (frames : Frames) :
  forall s r, invariant s -> quit s = false ->
  any_event is_quit_signal frames = false ->
  main_loop s frames = Some r ->
  length (rendered r) = length frames.
Proof.
  induction frames as [| events rest IH]; intros s r Hinv Hq Hsig H;
    simpl in H; rewrite Hq in H.
  - now inversion H.
  - simpl in Hsig. apply orb_false_iff in Hsig. destruct Hsig as [Hsig1 Hsig2].
    destruct (poll_events_invariant events s Hinv) as (s1 & H1 & Hinv1 & Hq1).
    rewrite H1 in H. cbn [bind] in H. rewrite Hq, Hsig1 in Hq1. simpl in Hq1.
    destruct (main_loop s1 rest) as [r1 |] eqn:Hr1; [| discriminate].
    cbn [bind] in H. inversion H; subst r. simpl.
    f_equal. now apply (IH s1).
Qed.

Lemma any_event_spec (p : Event -> bool) (frames : Frames) :
  any_event p frames = true <->
  exists events event, In events frames /\ In event events /\ p event = true.
Proof.
  unfold any_event. rewrite existsb_exists. split.
  - intros (events & Hin & Hex). apply existsb_exists in Hex.
    destruct Hex as (event & Hin' & Hp). now exists events, event.
  - intros (events & event & Hin & Hin' & Hp). exists events. split; [easy |].
    apply existsb_exists. now exists event.
Qed.

(** The camera program leaves its loop exactly when a quit signal arrives. *)
Lemma camera_loop_exits_iff_quit_signal (frames : Frames) :
  exists r, Camera.main frames = Some r /\
            (exited r = true <-> has_quit_signal frames).
Proof.
  unfold Camera.main. rewrite startup_ok. cbn [bind].
  destruct (main_loop_invariant frames initial_state initial_state_invariant
              eq_refl) as (r & Hr & _ & Hex).
  exists r. split; [exact Hr |]. rewrite Hex. apply any_event_spec.
Qed.

(** ** The loops of the earlier snapshots *)

Section QuitLoopFacts.
Variable process_event : bool -> Event -> bool.
Variable signal : Event -> bool.
Hypothesis process_event_signal :
  forall quit event, process_event quit event = quit || signal event.

Lemma quit_poll_events (events : list Event) :
  forall quit,
    QuitLoop.poll_events process_event quit events
    = quit || existsb signal events.
Proof.
  unfold QuitLoop.poll_events.
  induction events as [| event rest IH]; intros quit; simpl.
  - now rewrite orb_false_r.
  - now rewrite IH, process_event_signal, orb_assoc.
Qed.

Lemma quit_loop_exits (frames : Frames) :
  (exists n, QuitLoop.main_loop process_event false frames = Some n)
  <-> any_event signal frames = true.
Proof.
  induction frames as [| events rest IH]; simpl.
  - split; [intros [n H]; discriminate | discriminate].
  - rewrite quit_poll_events. simpl.
    destruct (existsb signal events); simpl.
    + split; [reflexivity | intros _].
      exists 1%nat. now destruct rest.
    + rewrite <- IH. split; intros [n H].
      * destruct (QuitLoop.main_loop process_event false rest) as [m |];
          [now exists m | discriminate].
      * exists (S n). now rewrite H.
Qed.

End QuitLoopFacts.

Lemma main_c_process_event (quit : bool) (event : Event) :
  MainC.process_event quit event = quit || is_escape_press event.
Proof.
  destruct event as [| sym | | | |]; simpl; try now rewrite orb_false_r.
  destruct (sym =? SDLK_ESCAPE)%Z;
    [now rewrite orb_true_r | now rewrite orb_false_r].
Qed.

Lemma src_main_c_process_event (quit : bool) (event : Event) :
  SrcMainC.process_event quit event = quit || is_quit_signal event.
Proof.
  destruct event as [| sym | | | |]; simpl; try now rewrite orb_false_r.
  - now rewrite orb_true_r.
  - destruct (sym =? SDLK_ESCAPE)%Z;
      [now rewrite orb_true_r | now rewrite orb_false_r].
Qed.

(** The top-level [main.c] leaves its loop exactly on an escape-key press. *)
Lemma main_c_exits_iff_escape (frames : Frames) :
  (exists n, MainC.main frames = Some n)
  <-> any_event is_escape_press frames = true.
Proof. apply quit_loop_exits, main_c_process_event. Qed.

(** [src/main.c] and the 211-line snapshot leave it exactly on a quit
    signal. *)
Lemma src_main_c_exits_iff_quit_signal (frames : Frames) :
  (exists n, SrcMainC.main frames = Some n) <-> has_quit_signal frames.
Proof.
  unfold has_quit_signal. rewrite <- any_event_spec.
  apply quit_loop_exits, src_main_c_process_event.
Qed.

(** C5. In the top-level [main.c] a window-close event is a quit signal that
    does not end the loop: after a frame that delivers [SDL_QUIT], and after
    any number of such frames, the loop is still running, while the later
    snapshots leave their loop on the same input. *)
Theorem main_c_window_close_not_handled :
  has_quit_signal [[SDL_QUIT]] /\
  MainC.main [[SDL_QUIT]] = None /\
  (forall n, MainC.main (repeat [SDL_QUIT] n) = None) /\
  SrcMainC.main [[SDL_QUIT]] = Some 1%nat /\
  (exists r, Camera.main [[SDL_QUIT]] = Some r /\ exited r = true).
Proof.
  split; [| split; [| split; [| split]]].
  - exists [SDL_QUIT], SDL_QUIT. simpl. auto.
  - reflexivity.
  - intros n. unfold MainC.main.
    induction n as [| n IH]; simpl; [reflexivity |].
    unfold QuitLoop.poll_events. simpl. now rewrite IH.
  - reflexivity.
  - destruct (camera_loop_exits_iff_quit_signal [[SDL_QUIT]]) as (r & Hr & Hex).
    exists r. split; [exact Hr |]. apply Hex.
    exists [SDL_QUIT], SDL_QUIT. simpl. auto.
Qed.

(** ** Drag updates *)

Lemma motion_while_held (s : State) (xrel yrel : Z) :
  is_lmb_pressed s = true ->
  process_event s (SDL_MOUSEMOTION xrel yrel) = drag s xrel yrel.
Proof. intros H. simpl. now rewrite H. Qed.

Lemma drags_invariant (s : State) (d : Z * Z) (rest : list (Z * Z)) :
  is_lmb_pressed s = true ->
  exists s', poll_events s (motions (d :: rest)) = Some s' /\ invariant s'.
Proof.
  intros Hlmb. cbn [motions map poll_events].
  rewrite (motion_while_held _ _ _ Hlmb).
  destruct (drag_invariant s (fst d) (snd d)) as (s1 & H1 & Hinv1 & _).
  rewrite H1. cbn [bind].
  destruct (poll_events_invariant (map (fun d => SDL_MOUSEMOTION (fst d) (snd d)) rest)
              s1 Hinv1) as (s2 & H2 & Hinv2 & _).
  now exists s2.
Qed.

Lemma reachable_invariant (events : list Event) :
  exists s',
    (s0 <- startup ;; poll_events s0 events) = Some s' /\ invariant s'.
Proof.
  rewrite startup_ok. cbn [bind].
  destruct (poll_events_invariant events _ initial_state_invariant)
    as (s' & H & Hinv & _).
  now exists s'.
Qed.



(** C1. The camera's right, up and direction vectors are mutually
    orthogonal (each pairwise dot product is exactly zero) in every state the
    program reaches from its start, whatever the events, and after every
    non-empty sequence of drag updates applied to any camera state.  World-up
    is the constant (0,1,0); the direction is never parallel to it, since the
    clamped pitch keeps [cos pitch] positive, so the normalisation of the
    right vector is always defined. *)
Theorem camera_basis_orthogonal :
  (forall events, exists s',
     (s0 <- startup ;; poll_events s0 events) = Some s' /\
     orthogonal_basis s') /\
  (forall s d rest, is_lmb_pressed s = true ->
   exists s',
     poll_events s (motions (d :: rest)) = Some s' /\ orthogonal_basis s').
Proof.
  split.
  - intros events. destruct (reachable_invariant events) as (s' & H & Hinv).
    exists s'. split; [exact H | apply Hinv].
  - intros s d rest Hlmb.
    destruct (drags_invariant s d rest Hlmb) as (s' & H & Hinv).
    exists s'. split; [exact H | apply Hinv].
Qed.

Lemma camera_basis_orthogonal_witness :
  exists s',
    poll_events (held initial_state) (motions [(40, -25)%Z; (-7, 300)%Z])
      = Some s' /\ orthogonal_basis s'.
Proof.
  apply (proj2 camera_basis_orthogonal (held initial_state)). reflexivity.
Defined.




(** C4. After every drag event [pitch_deg] lies in [-89, 89], from any
    state and for any [yrel]; hence it does so after each event of every
    sequence the program processes from its start. *)
Theorem pitch_within_limits :
  (forall s xrel yrel, is_lmb_pressed s = true ->
   exists s',
     process_event s (SDL_MOUSEMOTION xrel yrel) = Some s' /\
     -89 <= pitch_deg s' <= 89) /\
  (forall s d rest, is_lmb_pressed s = true ->
   exists s',
     poll_events s (motions (d :: rest)) = Some s' /\
     -89 <= pitch_deg s' <= 89) /\
  (forall events, exists s',
     (s0 <- startup ;; poll_events s0 events) = Some s' /\
     -89 <= pitch_deg s' <= 89).
Proof.
  split; [| split].
  - intros s xrel yrel Hlmb. rewrite (motion_while_held _ _ _ Hlmb).
    destruct (drag_spec s xrel yrel) as (s' & H & _ & _ & Hrange & _).
    now exists s'.
  - intros s d rest Hlmb.
    destruct (drags_invariant s d rest Hlmb) as (s' & H & Hinv).
    exists s'. split; [exact H | apply Hinv].
  - intros events. destruct (reachable_invariant events) as (s' & H & Hinv).
    exists s'. split; [exact H | apply Hinv].
Qed.

Lemma pitch_within_limits_witness :
  (exists s',
     process_event (held initial_state) (SDL_MOUSEMOTION 0 (-2000000000))
       = Some s' /\ -89 <= pitch_deg s' <= 89) /\
  (exists s',
     poll_events (held initial_state)
       (motions [(0, 1000)%Z; (0, -50)%Z; (0, -5000)%Z]) = Some s' /\
     -89 <= pitch_deg s' <= 89).
Proof.
  split.
  - apply (proj1 pitch_within_limits (held initial_state)). reflexivity.
  - apply (proj1 (proj2 pitch_within_limits) (held initial_state)). reflexivity.
Defined.

Lemma clamp_inside (lo hi x : R) : lo <= x <= hi -> clamp lo hi x = x.
Proof.
  intros [Hlo Hhi]. unfold clamp, Rmax, Rmin.
  repeat (destruct (Rle_dec _ _)); lra.
Qed.

Lemma spherical_0_0 : spherical 0 0 = mkVec3f 0 0 (-1).
Proof.
  unfold spherical. replace (0 * PI / 180) with 0 by (unfold Rdiv; ring).
  rewrite sin_0, cos_0. f_equal; ring.
Qed.

(** C7. The program starts with yaw 0, pitch 0 and direction (0,0,-1); a
    drag event with [xrel = 0] and [yrel = 0] (the left button having been
    pressed) leaves the direction at (0,0,-1). *)
Theorem zero_drag_keeps_direction :
  exists s0 s',
    startup = Some s0 /\
    yaw_deg s0 = 0 /\ pitch_deg s0 = 0 /\
    camera_dir s0 = mkVec3f 0 0 (-1) /\
    poll_events s0 [SDL_MOUSEBUTTONDOWN SDL_BUTTON_LEFT; SDL_MOUSEMOTION 0 0]
      = Some s' /\
    camera_dir s' = mkVec3f 0 0 (-1) /\
    camera_dir s' = camera_dir s0.
Proof.
  exists initial_state.
  destruct (drag_spec (held initial_state) 0 0)
    as (s' & H & Hyaw & Hpitch & _ & Hdir & _).
  exists s'. split; [exact startup_ok |].
  assert (D : camera_dir s' = mkVec3f 0 0 (-1)).
  { rewrite Hdir, Hyaw, Hpitch. cbn [held set_is_lmb_pressed yaw_deg pitch_deg
      initial_state].
    replace (0 + 0) with 0 by ring. replace (0 - 0) with 0 by ring.
    rewrite clamp_inside by lra. apply spherical_0_0. }
  repeat split; try reflexivity; try exact D.
  cbn [poll_events]. change (process_event initial_state
    (SDL_MOUSEBUTTONDOWN SDL_BUTTON_LEFT)) with (Some (held initial_state)).
  cbn [bind]. rewrite motion_while_held by reflexivity.
  rewrite H. reflexivity.
Qed.

(** C9. A mouse-motion event processed while the left button is not held
    leaves the whole state as it was: [yaw_deg], [pitch_deg], [camera_dir],
    [camera_right], [camera_up], [camera_pos] and the view matrix (and the
    two flags). *)
Theorem motion_without_button_is_ignored (s : State) (xrel yrel : Z) :
  is_lmb_pressed s = false ->
  exists s',
    process_event s (SDL_MOUSEMOTION xrel yrel) = Some s' /\
    s' = s /\
    yaw_deg s' = yaw_deg s /\ pitch_deg s' = pitch_deg s /\
    camera_dir s' = camera_dir s /\ camera_right s' = camera_right s /\
    camera_up s' = camera_up s /\ camera_pos s' = camera_pos s /\
    look_at_matrix s' = look_at_matrix s.
Proof.
  intros Hlmb. exists s. simpl. rewrite Hlmb. simpl. repeat split.
Qed.

Lemma motion_without_button_is_ignored_witness :
  exists s',
    process_event initial_state (SDL_MOUSEMOTION 12 (-7)) = Some s' /\
    s' = initial_state /\
    yaw_deg s' = yaw_deg initial_state /\
    pitch_deg s' = pitch_deg initial_state /\
    camera_dir s' = camera_dir initial_state /\
    camera_right s' = camera_right initial_state /\
    camera_up s' = camera_up initial_state /\
    camera_pos s' = camera_pos initial_state /\
    look_at_matrix s' = look_at_matrix initial_state.
Proof.
  apply (motion_without_button_is_ignored initial_state 12 (-7)). reflexivity.
Defined.



(** * Further properties of the code *)

Import Notions.













(** X5. The cross product of a vector with itself is the zero vector. *)
Theorem cross_self_is_zero (a : Vec3f) : vec3f_cross a a = vec3f_zero.
Proof. unfold vec3f_cross, vec3f_zero. f_equal; ring. Qed.



(** ** More on the matrix product *)

Lemma is_4x4_shape (m : Mat4f) :
  is_4x4 m ->
  exists a0 a1 a2 a3 b0 b1 b2 b3 c0 c1 c2 c3 d0 d1 d2 d3,
    m = [[a0; a1; a2; a3]; [b0; b1; b2; b3]; [c0; c1; c2; c3]; [d0; d1; d2; d3]].
Proof.
  intros [Hlen Hrows].
  destruct (length_4 _ Hlen) as (r0 & r1 & r2 & r3 & ->).
  inversion_clear Hrows as [|? ? H0 Hrows1].
  inversion_clear Hrows1 as [|? ? H1 Hrows2].
  inversion_clear Hrows2 as [|? ? H2 Hrows3].
  inversion_clear Hrows3 as [|? ? H3 _].
  destruct (length_4 _ H0) as (a0 & a1 & a2 & a3 & ->).
  destruct (length_4 _ H1) as (b0 & b1 & b2 & b3 & ->).
  destruct (length_4 _ H2) as (c0 & c1 & c2 & c3 & ->).
  destruct (length_4 _ H3) as (d0 & d1 & d2 & d3 & ->).
  now exists a0, a1, a2, a3, b0, b1, b2, b3, c0, c1, c2, c3, d0, d1, d2, d3.
Qed.

Lemma tabulate_is_4x4 (f : nat -> nat -> R) : is_4x4 (mat4f_tabulate f).
Proof.
  unfold is_4x4, mat4f_tabulate. simpl. split; [reflexivity |].
  repeat constructor.
Qed.

Lemma identity_is_4x4 : is_4x4 mat4f_identity.
Proof. unfold is_4x4, mat4f_identity. simpl. split; [reflexivity |]. repeat constructor. Qed.

(** X8. The identity matrix is a left and a right unit of [mat4f_product] on
    4x4 matrices. *)
Theorem product_with_identity (m : Mat4f) :
  is_4x4 m ->
  mat4f_product mat4f_identity m = m /\ mat4f_product m mat4f_identity = m.
Proof.
  intros H.
  destruct (is_4x4_shape m H)
    as (a0 & a1 & a2 & a3 & b0 & b1 & b2 & b3 & c0 & c1 & c2 & c3
        & d0 & d1 & d2 & d3 & ->).
  rewrite !mat4f_product_entries.
  unfold mat4f_tabulate, row_by_column, mat_get, mat4f_identity. cbn.
  split; repeat (f_equal; try ring).
Qed.

Lemma product_with_identity_witness :
  mat4f_product mat4f_identity mat4f_identity = mat4f_identity /\
  mat4f_product mat4f_identity mat4f_identity = mat4f_identity.
Proof. apply (product_with_identity mat4f_identity), identity_is_4x4. Defined.


(** X10. What the uninitialised local [result] of [mat4f_product] holds on
    entry has no influence on what is returned, and the product is always a
    4x4 matrix. *)
Theorem product_ignores_uninitialised_result (result a b : Mat4f) :
  is_4x4 result ->
  mat4f_product_into result a b = mat4f_product a b /\
  is_4x4 (mat4f_product a b).
Proof.
  intros H. split; [apply mat4f_product_into_any, H |].
  rewrite mat4f_product_entries. apply tabulate_is_4x4.
Qed.

Lemma product_ignores_uninitialised_result_witness :
  mat4f_product_into mat4f_identity mat4f_identity mat4f_identity
  = mat4f_product mat4f_identity mat4f_identity /\
  is_4x4 (mat4f_product mat4f_identity mat4f_identity).
Proof.
  apply (product_ignores_uninitialised_result mat4f_identity), identity_is_4x4.
Defined.

Lemma build_look_at_entries (R U D P : Vec3f) :
  build_look_at R U D P = look_at_entries R U D P.
Proof.
  unfold build_look_at. rewrite mat4f_product_entries.
  unfold mat4f_tabulate, row_by_column, mat_get, rotation_matrix,
    translation_matrix, look_at_entries, vec3f_dot. cbn.
  repeat (f_equal; try ring).
Qed.

(** ** The camera as a function of its angles *)

Lemma right_of_spherical (yaw pitch : R) :
  -89 <= pitch <= 89 ->
  vec3f_normalize (vec3f_cross (spherical yaw pitch) world_up)
  = Some (right_of yaw).
Proof.
  intros Hrange. pose proof (cos_pitch_pos pitch Hrange) as Hcos.
  assert (Hlen : vec3f_get_length (vec3f_cross (spherical yaw pitch) world_up)
                 = cos (pitch * PI / 180)).
  { apply cross_world_up_length; [exact Hcos |].
    unfold spherical. simpl. pose proof (sin2_cos2 (yaw * PI / 180)) as H.
    unfold Rsqr in H. nra. }
  rewrite normalize_some by (rewrite Hlen; lra). rewrite Hlen.
  unfold right_of, spherical, vec3f_cross, world_up.
  cbn [value0 value1 value2]. f_equal. f_equal; field; lra.
Qed.

Lemma up_of_spherical (yaw pitch : R) :
  vec3f_cross (right_of yaw) (spherical yaw pitch) = up_of yaw pitch.
Proof.
  unfold up_of, right_of, spherical, vec3f_cross. cbn [value0 value1 value2].
  pose proof (sin2_cos2 (yaw * PI / 180)) as H. unfold Rsqr in H.
  f_equal; try ring.
  replace (sin (yaw * PI / 180) * (sin (yaw * PI / 180) * cos (pitch * PI / 180))
           - cos (yaw * PI / 180)
             * - (cos (yaw * PI / 180) * cos (pitch * PI / 180)))
    with ((sin (yaw * PI / 180) * sin (yaw * PI / 180)
           + cos (yaw * PI / 180) * cos (yaw * PI / 180))
          * cos (pitch * PI / 180)) by ring.
  rewrite H. ring.
Qed.

Lemma drag_posed (s : State) (xrel yrel : Z) :
  drag s xrel yrel
  = Some (posed s (yaw_deg s + IZR xrel)
                  (clamp (-89) 89 (pitch_deg s - IZR yrel))).
Proof.
  destruct (drag_spec s xrel yrel)
    as (s' & H & Hyaw & Hpitch & Hrange & Hdir & Hright & Hup & Hpos & Hview
        & Hlmb & Hquit).
  rewrite H. f_equal.
  rewrite Hdir, (right_of_spherical _ _ Hrange) in Hright.
  injection Hright as Hright.
  rewrite <- Hright, Hdir, up_of_spherical in Hup.
  unfold view_is_product in Hview.
  destruct s' as [pos dir right up yaw pitch view lmb q].
  cbn [yaw_deg pitch_deg camera_dir camera_right camera_up camera_pos
       look_at_matrix is_lmb_pressed quit] in *.
  subst. unfold posed, build_look_at. reflexivity.
Qed.

Lemma posed_agrees (s : State) (yaw pitch : R) :
  -89 <= pitch <= 89 -> agrees_with_angles (posed s yaw pitch).
Proof. intros H. unfold agrees_with_angles, posed. simpl. tauto. Qed.




Lemma initial_state_agrees : agrees_with_angles initial_state.
Proof.
  unfold agrees_with_angles, initial_state.
  cbn [yaw_deg pitch_deg camera_dir camera_right camera_up camera_pos
       look_at_matrix].
  split; [lra |]. rewrite spherical_0_0.
  unfold right_of, up_of. replace (0 * PI / 180) with 0 by (unfold Rdiv; ring).
  rewrite sin_0, cos_0.
  repeat split; try reflexivity; f_equal; ring.
Qed.

Lemma agrees_set_quit (s : State) (b : bool) :
  agrees_with_angles s -> agrees_with_angles (set_quit s b).
Proof. destruct s. exact (fun H => H). Qed.

Lemma agrees_set_is_lmb_pressed (s : State) (b : bool) :
  agrees_with_angles s -> agrees_with_angles (set_is_lmb_pressed s b).
Proof. destruct s. exact (fun H => H). Qed.

Lemma clamp_range (x : R) : -89 <= clamp (-89) 89 x <= 89.
Proof.
  unfold clamp, Rmax, Rmin. repeat (destruct (Rle_dec _ _)); lra.
Qed.

Lemma process_event_agrees (s : State) (event : Event) :
  agrees_with_angles s ->
  exists s',
    process_event s event = Some s' /\ agrees_with_angles s' /\
    camera_pos s' = camera_pos s.
Proof.
  intros Hs. destruct event as [| sym | button | button | xrel yrel | ty];
    simpl.
  - exists (set_quit s true). split; [reflexivity |].
    split; [now apply agrees_set_quit | now destruct s].
  - destruct (sym =? SDLK_ESCAPE)%Z.
    + exists (set_quit s true). split; [reflexivity |].
      split; [now apply agrees_set_quit | now destruct s].
    + now exists s.
  - destruct (button =? SDL_BUTTON_LEFT)%Z.
    + exists (set_is_lmb_pressed s true). split; [reflexivity |].
      split; [now apply agrees_set_is_lmb_pressed | now destruct s].
    + now exists s.
  - destruct (button =? SDL_BUTTON_LEFT)%Z.
    + exists (set_is_lmb_pressed s false). split; [reflexivity |].
      split; [now apply agrees_set_is_lmb_pressed | now destruct s].
    + now exists s.
  - destruct (is_lmb_pressed s); simpl.
    + rewrite drag_posed. eexists. split; [reflexivity |].
      split; [apply posed_agrees, clamp_range | reflexivity].
    + now exists s.
  - now exists s.
Qed.

Lemma poll_events_agrees (events : list Event) :
  forall s, agrees_with_angles s ->
  exists s',
    poll_events s events = Some s' /\ agrees_with_angles s' /\
    camera_pos s' = camera_pos s.
Proof.
  induction events as [| event rest IH]; intros s Hs; simpl.
  - now exists s.
  - destruct (process_event_agrees s event Hs) as (s1 & H1 & Hs1 & Hp1).
    rewrite H1. cbn [bind].
    destruct (IH s1 Hs1) as (s2 & H2 & Hs2 & Hp2).
    exists s2. repeat split; try assumption; try apply Hs2. congruence.
Qed.

Lemma reachable_agrees (events : list Event) :
  exists s',
    (s0 <- startup ;; poll_events s0 events) = Some s' /\
    agrees_with_angles s' /\ camera_pos s' = mkVec3f 0 0 3.
Proof.
  rewrite startup_ok. cbn [bind].
  destruct (poll_events_agrees events _ initial_state_agrees)
    as (s' & H & Hs & Hp).
  now exists s'.
Qed.







(** X14. The camera position is never changed, and in every state the
    program reaches the view matrix has the rows right, up, direction, each
    followed by minus its dot product with the position (0,0,3), and the
    last row (0,0,0,1). *)
Theorem view_matrix_entries (events : list Event) :
  exists s',
    (s0 <- startup ;; poll_events s0 events) = Some s' /\
    camera_pos s' = mkVec3f 0 0 3 /\
    look_at_matrix s' =
      [ [value0 (camera_right s'); value1 (camera_right s');
         value2 (camera_right s'); - (3 * value2 (camera_right s'))];
        [value0 (camera_up s'); value1 (camera_up s');
         value2 (camera_up s'); - (3 * value2 (camera_up s'))];
        [value0 (camera_dir s'); value1 (camera_dir s');
         value2 (camera_dir s'); - (3 * value2 (camera_dir s'))];
        [0; 0; 0; 1] ].
Proof.
  destruct (reachable_agrees events) as (s' & H & (_ & _ & _ & _ & Hv) & Hp).
  exists s'. split; [exact H |]. split; [exact Hp |].
  rewrite Hv, Hp, build_look_at_entries. unfold look_at_entries, vec3f_dot.
  simpl. repeat (f_equal; try ring).
Qed.











(** ** More on the event loops *)

Import LoopNotions.

Lemma same_camera_refl (s : State) : same_camera s s.
Proof. unfold same_camera. tauto. Qed.

Lemma same_camera_trans (s1 s2 s3 : State) :
  same_camera s1 s2 -> same_camera s2 s3 -> same_camera s1 s3.
Proof. unfold same_camera. intuition congruence. Qed.

(** X18. While the left button is up, nothing moves the camera: a batch of
    events without a left-button press leaves position, vectors, angles and
    view matrix as they were and the button up. *)
Theorem camera_rests_until_left_press (events : list Event) :
  forall s,
    is_lmb_pressed s = false ->
    forallb (fun e => negb (is_left_press e)) events = true ->
    exists s',
      poll_events s events = Some s' /\ same_camera s s' /\
      is_lmb_pressed s' = false.
Proof.
  induction events as [| event rest IH]; intros s Hlmb Hno; simpl.
  - exists s. split; [reflexivity |]. split; [apply same_camera_refl | exact Hlmb].
  - simpl in Hno. apply andb_true_iff in Hno. destruct Hno as [He Hrest].
    assert (Hstep : exists s1, process_event s event = Some s1 /\
                     same_camera s s1 /\ is_lmb_pressed s1 = false).
    { destruct event as [| sym | button | button | xrel yrel | ty]; simpl.
      - exists (set_quit s true). destruct s; simpl in *.
        repeat split; assumption.
      - destruct (sym =? SDLK_ESCAPE)%Z.
        + exists (set_quit s true). destruct s; simpl in *.
          repeat split; assumption.
        + exists s. repeat split; assumption.
      - simpl in He. destruct (button =? SDL_BUTTON_LEFT)%Z; [discriminate |].
        exists s. repeat split; assumption.
      - destruct (button =? SDL_BUTTON_LEFT)%Z.
        + exists (set_is_lmb_pressed s false). destruct s; simpl in *.
          repeat split.
        + exists s. repeat split; assumption.
      - rewrite Hlmb. simpl. exists s. repeat split; assumption.
      - exists s. repeat split; assumption. }
    destruct Hstep as (s1 & H1 & Hsame1 & Hlmb1).
    rewrite H1. cbn [bind].
    destruct (IH s1 Hlmb1 Hrest) as (s2 & H2 & Hsame2 & Hlmb2).
    exists s2. split; [exact H2 |].
    split; [exact (same_camera_trans _ _ _ Hsame1 Hsame2) | exact Hlmb2].
Qed.

Lemma camera_rests_until_left_press_witness :
  exists s',
    poll_events initial_state
      [SDL_MOUSEMOTION 5 5; SDL_MOUSEBUTTONDOWN 3; SDL_MOUSEMOTION (-9) 40;
       SDL_KEYDOWN 97; SDL_MOUSEBUTTONUP SDL_BUTTON_LEFT; SDL_MOUSEMOTION 1 1]
      = Some s' /\
    same_camera initial_state s' /\ is_lmb_pressed s' = false.
Proof.
  apply (camera_rests_until_left_press _ initial_state); reflexivity.
Defined.

Lemma drag_after_quit (s : State) (xrel yrel : Z) :
  drag (set_quit s true) xrel yrel
  = option_map (fun t => set_quit t true) (drag s xrel yrel).
Proof.
  rewrite !drag_posed. destruct s as [pos dir right up yaw pitch view lmb q].
  unfold posed, set_quit.
  cbn [option_map yaw_deg pitch_deg camera_dir camera_right camera_up
       camera_pos look_at_matrix is_lmb_pressed quit].
  reflexivity.
Qed.

Lemma process_event_after_quit (s : State) (event : Event) :
  process_event (set_quit s true) event
  = option_map (fun t => set_quit t true) (process_event s event).
Proof.
  destruct event as [| sym | button | button | xrel yrel | ty]; simpl.
  - now destruct s.
  - destruct (sym =? SDLK_ESCAPE)%Z; now destruct s.
  - destruct (button =? SDL_BUTTON_LEFT)%Z; now destruct s.
  - destruct (button =? SDL_BUTTON_LEFT)%Z; now destruct s.
  - replace (is_lmb_pressed (set_quit s true)) with (is_lmb_pressed s)
      by now destruct s.
    destruct (is_lmb_pressed s); simpl; [| reflexivity].
    apply drag_after_quit.
  - reflexivity.
Qed.

Lemma poll_events_after_quit (events : list Event) :
  forall s,
    poll_events (set_quit s true) events
    = option_map (fun t => set_quit t true) (poll_events s events).
Proof.
  induction events as [| event rest IH]; intros s; simpl; [reflexivity |].
  rewrite process_event_after_quit.
  destruct (process_event s event) as [s1 |]; simpl; [apply IH | reflexivity].
Qed.

(** X19. A quit signal does not cut the batch short: the events behind it in
    the same batch are processed as they would be without it, only [quit]
    stays set. *)
Theorem quit_does_not_cut_the_batch (s : State) (events : list Event) :
  poll_events s (SDL_QUIT :: events)
  = option_map (fun t => set_quit t true) (poll_events s events) /\
  poll_events s (SDL_KEYDOWN SDLK_ESCAPE :: events)
  = option_map (fun t => set_quit t true) (poll_events s events).
Proof.
  split; cbn [poll_events process_event]; [| rewrite Z.eqb_refl];
    cbn [bind]; apply poll_events_after_quit.
Qed.

Lemma first_frame_any (p : Event -> bool) (frames : Frames) :
  first_frame p frames = None <-> any_event p frames = false.
Proof.
  unfold any_event. induction frames as [| events rest IH]; simpl.
  - tauto.
  - destruct (existsb p events); simpl.
    + split; discriminate.
    + rewrite <- IH. destruct (first_frame p rest); simpl; split;
        congruence.
Qed.

Lemma main_loop_timing (frames : Frames) :
  forall s, invariant s -> quit s = false ->
  exists r,
    main_loop s frames = Some r /\
    match first_frame is_quit_signal frames with
    | Some n => exited r = true /\ length (rendered r) = S n
    | None => exited r = false /\ length (rendered r) = length frames
    end.
Proof.
  induction frames as [| events rest IH]; intros s Hinv Hq; simpl; rewrite Hq.
  - eexists. split; [reflexivity |]. now split.
  - destruct (poll_events_invariant events s Hinv) as (s1 & H1 & Hinv1 & Hq1).
    rewrite H1. cbn [bind]. rewrite Hq in Hq1. simpl in Hq1.
    destruct (existsb is_quit_signal events) eqn:Hsig.
    + rewrite (main_loop_quit _ _ Hq1). cbn [bind]. eexists.
      split; [reflexivity |]. now split.
    + destruct (IH s1 Hinv1 Hq1) as (r & Hr & Ht).
      rewrite Hr. cbn [bind]. eexists. split; [reflexivity |]. simpl.
      destruct (first_frame is_quit_signal rest); simpl;
        destruct Ht as [Ht1 Ht2]; split; congruence.
Qed.

(** X20. The camera program leaves its loop right after the first frame that
    carries a quit signal, having drawn that frame too and none after it;
    without a quit signal it draws every frame and is still running. *)
Theorem camera_loop_exit_timing (frames : Frames) :
  exists r,
    Camera.main frames = Some r /\
    match first_frame is_quit_signal frames with
    | Some n => exited r = true /\ length (rendered r) = S n
    | None => exited r = false /\ length (rendered r) = length frames
    end.
Proof.
  unfold Camera.main. rewrite startup_ok. cbn [bind].
  apply main_loop_timing; [apply initial_state_invariant | reflexivity].
Qed.

Section QuitLoopTiming.
Variable process_event : bool -> Event -> bool.
Variable signal : Event -> bool.
Hypothesis process_event_signal :
  forall quit event, process_event quit event = quit || signal event.

Lemma quit_loop_timing (frames : Frames) :
  QuitLoop.main_loop process_event false frames
  = option_map S (first_frame signal frames).
Proof.
  induction frames as [| events rest IH]; simpl; [reflexivity |].
  rewrite (quit_poll_events _ _ process_event_signal). simpl.
  destruct (existsb signal events); simpl.
  - now destruct rest.
  - now rewrite IH.
Qed.

End QuitLoopTiming.

(** X21. Both earlier loops run for one iteration more than the index of the
    first frame that carries their signal (an escape press for the
    top-level main.c, any quit signal for src/main.c), and do not end
    without one. *)
Theorem earlier_loops_exit_timing (frames : Frames) :
  MainC.main frames = option_map S (first_frame is_escape_press frames) /\
  SrcMainC.main frames = option_map S (first_frame is_quit_signal frames).
Proof.
  split.
  - apply quit_loop_timing, main_c_process_event.
  - apply quit_loop_timing, src_main_c_process_event.
Qed.

Lemma first_frame_weaker (p q : Event -> bool) (frames : Frames) :
  (forall e, p e = true -> q e = true) ->
  forall n, first_frame p frames = Some n ->
  exists m, first_frame q frames = Some m /\ (m <= n)%nat.
Proof.
  intros Hpq. induction frames as [| events rest IH]; simpl; intros n H.
  - discriminate.
  - destruct (existsb q events) eqn:Hq.
    + exists O. split; [reflexivity | lia].
    + destruct (existsb p events) eqn:Hp.
      * apply existsb_exists in Hp. destruct Hp as (e & Hin & He).
        assert (existsb q events = true)
          by (apply existsb_exists; exists e; auto).
        congruence.
      * destruct (first_frame p rest) as [k |]; [| discriminate].
        injection H as <-. destruct (IH k eq_refl) as (m & Hm & Hle).
        rewrite Hm. exists (S m). split; [reflexivity | lia].
Qed.

(** X22. Whenever the loop of the top-level main.c ends, the loop of
    src/main.c has ended no later; and the camera program leaves its loop
    after exactly as many iterations as src/main.c does on the same input. *)
Theorem snapshots_agree_on_exit (frames : Frames) :
  (forall n, MainC.main frames = Some n ->
   exists m, SrcMainC.main frames = Some m /\ (m <= n)%nat) /\
  (exists r,
     Camera.main frames = Some r /\
     (exited r = true ->
      SrcMainC.main frames = Some (length (rendered r))) /\
     (exited r = false -> SrcMainC.main frames = None)).
Proof.
  split.
  - intros n H.
    rewrite (quit_loop_timing _ _ main_c_process_event) in H.
    rewrite (quit_loop_timing _ _ src_main_c_process_event).
    destruct (first_frame is_escape_press frames) as [k |] eqn:Hk;
      [| discriminate].
    injection H as <-.
    destruct (first_frame_weaker is_escape_press is_quit_signal frames)
      with (n := k) as (m & Hm & Hle).
    + intros [| sym | | | |]; simpl; congruence.
    + exact Hk.
    + rewrite Hm. exists (S m). split; [reflexivity | lia].
  - unfold Camera.main. rewrite startup_ok. cbn [bind].
    destruct (main_loop_timing frames initial_state initial_state_invariant
                eq_refl) as (r & Hr & Ht).
    exists r. split; [exact Hr |].
    rewrite (quit_loop_timing _ _ src_main_c_process_event).
    destruct (first_frame is_quit_signal frames) as [k |];
      destruct Ht as [Ht1 Ht2]; simpl; split; intros E.
    + now rewrite Ht2.
    + congruence.
    + congruence.
    + reflexivity.
Qed.

Lemma snapshots_agree_on_exit_witness :
  exists m,
    SrcMainC.main [[SDL_OTHER 512]; [SDL_QUIT]; [SDL_KEYDOWN SDLK_ESCAPE]]
    = Some m /\ (m <= 3)%nat.
Proof.
  apply (proj1 (snapshots_agree_on_exit
                  [[SDL_OTHER 512]; [SDL_QUIT]; [SDL_KEYDOWN SDLK_ESCAPE]]) 3%nat).
  reflexivity.
Defined.

(** ** The process: paths, resources and exit *)

Import Process ProcessNotions.

Lemma substring_whole (s : String.string) :
  String.substring 0 (String.length s) s = s.
Proof. induction s as [| c s IH]; simpl; [reflexivity | now rewrite IH]. Qed.

Lemma append_length (s1 s2 : String.string) :
  String.length (String.append s1 s2)
  = (String.length s1 + String.length s2)%nat.
Proof. induction s1 as [| c s1 IH]; simpl; [reflexivity | now rewrite IH]. Qed.

Lemma snprintf_fits (s1 s2 : String.string) :
  snprintf_s_s (String.length s1 + String.length s2 + 1) s1 s2
  = String.append s1 s2.
Proof.
  replace (String.length s1 + String.length s2 + 1)%nat
    with (S (String.length (String.append s1 s2)))
    by (rewrite append_length; lia).
  apply substring_whole.
Qed.

Lemma get_absolute_path_eq (w : World) (relative_path : String.string) (st : St) :
  get_absolute_path w relative_path st
  = Ok (answer w (asked st),
        if (answer w (asked st) =? 0)%Z then String.EmptyString
        else String.append (bin_dir_text st) relative_path)
       (mkSt (globals st) (bin_dir_text st)
             (log st ++ [malloc (answer w (asked st))]) (S (asked st))).
Proof.
  unfold get_absolute_path, andthen, read_bin_dir_text, ask, emit, ret.
  cbn [globals bin_dir_text log asked].
  rewrite snprintf_fits.
  destruct (answer w (asked st) =? 0)%Z eqn:E; [| reflexivity].
  apply Z.eqb_eq in E. now rewrite E.
Qed.

Lemma count_app (x : Kind * Z) (l1 l2 : list (Kind * Z)) :
  count x (l1 ++ l2) = (count x l1 + count x l2)%nat.
Proof. apply count_occ_app. Qed.

Lemma count_nil (x : Kind * Z) : count x [] = O.
Proof. reflexivity. Qed.

Lemma created_app (c1 c2 : list Call) :
  created (c1 ++ c2) = created c1 ++ created c2.
Proof. apply flat_map_app. Qed.

Lemma destroyed_app (c1 c2 : list Call) :
  destroyed (c1 ++ c2) = destroyed c1 ++ destroyed c2.
Proof. apply flat_map_app. Qed.

Lemma files_opened_app (c1 c2 : list Call) :
  files_opened (c1 ++ c2) = files_opened c1 ++ files_opened c2.
Proof. apply flat_map_app. Qed.

Lemma length_nonnull (k : Kind) (h : Z) : (List.length (nonnull k h) <= 1)%nat.
Proof. unfold nonnull. destruct (h =? 0)%Z; simpl; lia. Qed.

Lemma nonnull_zero (k : Kind) : nonnull k 0 = [].
Proof. reflexivity. Qed.

Lemma nonnull_null (k : Kind) (h : Z) : (h =? 0)%Z = true -> nonnull k h = [].
Proof. intros H. unfold nonnull. now rewrite H. Qed.

Lemma length_nonnull_nonzero (k : Kind) (h : Z) :
  (h =? 0)%Z = false -> List.length (nonnull k h) = 1%nat.
Proof. intros H. unfold nonnull. now rewrite H. Qed.

Lemma count_other_kind (x : Kind * Z) (k : Kind) (h : Z) :
  fst x <> k -> count x (nonnull k h) = O.
Proof.
  intros H. unfold nonnull, count. destruct (h =? 0)%Z; [reflexivity |].
  apply count_occ_not_In. intros [E | []]. subst x. now elim H.
Qed.

(** Running the monadic code on a state. *)
Ltac exec :=
  lazy beta iota delta
    [andthen ask emit ret exit assign read assign_bin_dir_text
     read_bin_dir_text globals bin_dir_text log asked fst snd
     set_global Global_eqb Global_index Nat.eqb].

Ltac split_if :=
  match goal with
  | |- context [if (?a =? 0)%Z then _ else _] =>
      destruct (a =? 0)%Z eqn:?
  | |- context [if (?a <? 0)%Z then _ else _] =>
      destruct (a <? 0)%Z eqn:?
  end;
  cbn [globals bin_dir_text log asked] in *.

Lemma created_cons (c : Call) (l : list Call) :
  created (c :: l) = creates c ++ created l.
Proof. reflexivity. Qed.

Lemma destroyed_cons (c : Call) (l : list Call) :
  destroyed (c :: l) = destroys c ++ destroyed l.
Proof. reflexivity. Qed.

Lemma created_release (v : Z) (c : Call) :
  creates c = [] -> created (release_if_set v c) = [].
Proof.
  intros H. unfold release_if_set. destruct (v =? 0)%Z; [reflexivity |].
  rewrite created_cons, H. reflexivity.
Qed.

Lemma destroyed_release (v : Z) (c : Call) (k : Kind) :
  destroys c = nonnull k v -> destroyed (release_if_set v c) = nonnull k v.
Proof.
  intros H. unfold release_if_set, nonnull in *.
  destruct (v =? 0)%Z; [reflexivity |].
  rewrite destroyed_cons, H. reflexivity.
Qed.

(** Splitting the logs into blocks and counting block by block. *)
Ltac count_blocks :=
  repeat rewrite ?created_app, ?destroyed_app, ?files_opened_app, ?existsb_app;
  repeat (rewrite created_release by reflexivity);
  repeat match goal with
  | |- context [destroyed (release_if_set ?v ?c)] =>
      let d := eval cbn [destroys] in (destroys c) in
      match d with
      | nonnull ?k _ => rewrite (destroyed_release v c k eq_refl)
      end
  end;
  repeat rewrite ?created_cons, ?destroyed_cons;
  change (created []) with (@nil (Kind * Z));
  change (destroyed []) with (@nil (Kind * Z));
  cbn [creates destroys files_opened flat_map existsb draws orb];
  repeat match goal with
  | H : (?h =? 0)%Z = true |- context [nonnull ?k ?h] =>
      rewrite (nonnull_null k h H)
  end;
  rewrite ?nonnull_zero;
  repeat rewrite ?length_app, ?app_nil_r, ?app_nil_l;
  cbn [List.length].

Ltac count_facts :=
  repeat match goal with
  | H : (?h =? 0)%Z = false |- context [nonnull ?k ?h] =>
      lazymatch goal with
      | _ : List.length (nonnull k h) = 1%nat |- _ => fail
      | _ => pose proof (length_nonnull_nonzero k h H)
      end
  end;
  repeat match goal with
  | |- context [nonnull ?k ?h] =>
      lazymatch goal with
      | _ : (List.length (nonnull k h) <= 1)%nat |- _ => fail
      | _ => pose proof (length_nonnull k h)
      end
  end.

Ltac count_goal :=
  intros;
  repeat match goal with
  | H : ?h <> 0%Z |- _ => apply Z.eqb_neq in H
  end;
  count_facts;
  rewrite ?count_nil in *;
  repeat rewrite ?count_app, ?count_nil;
  repeat match goal with
  | H : fst ?x <> ?k |- context [count ?x (nonnull ?k _)] =>
      rewrite (count_other_kind x k) by exact H
  end;
  try lia; try congruence.

Ltac count_solve :=
  count_blocks; count_facts; repeat split; auto; count_goal.

Lemma load_shader_spec (w : World) (relative_path : String.string) (st : St) :
  exists v st' delta,
    load_shader w relative_path st = Ok v st' /\
    extends st st' delta /\
    shader_loaded (String.append (bin_dir_text st) relative_path) v delta.
Proof.
  unfold load_shader. exec. rewrite get_absolute_path_eq. exec.
  repeat split_if; exec;
    (eexists; eexists; eexists; split; [reflexivity |]);
    (split; [unfold extends; cbn [globals bin_dir_text log];
             repeat split; rewrite <- ?app_assoc; cbn [app]; reflexivity |]);
    unfold shader_loaded; count_solve.
Qed.

Lemma render_text_spec (w : World) (st : St) :
  exists b st' delta,
    render_text w st = Ok b st' /\ extends st st' delta /\
    self_contained delta /\
    (b = true <->
     answer w (asked st) <> 0%Z /\ answer w (S (asked st)) <> 0%Z).
Proof.
  unfold render_text. exec.
  repeat split_if; exec;
    (eexists; eexists; eexists; split; [reflexivity |]);
    (split; [unfold extends; cbn [globals bin_dir_text log];
             repeat split; rewrite <- ?app_assoc; cbn [app]; reflexivity |]);
    (split; [unfold self_contained; count_solve |]);
    repeat match goal with
    | H : (_ =? 0)%Z = true |- _ => apply Z.eqb_eq in H
    | H : (_ =? 0)%Z = false |- _ => apply Z.eqb_neq in H
    end;
    intuition congruence.
Qed.

Lemma extends_refl (st : St) : extends st st [].
Proof. unfold extends. now rewrite app_nil_r. Qed.

Lemma extends_trans (st1 st2 st3 : St) (d1 d2 : list Call) :
  extends st1 st2 d1 -> extends st2 st3 d2 -> extends st1 st3 (d1 ++ d2).
Proof.
  unfold extends. intros (G1 & B1 & L1) (G2 & B2 & L2).
  rewrite G2, B2, L2, L1, app_assoc. auto.
Qed.

Lemma self_contained_nil : self_contained [].
Proof. unfold self_contained. simpl. auto. Qed.

Lemma self_contained_app (d1 d2 : list Call) :
  self_contained d1 -> self_contained d2 -> self_contained (d1 ++ d2).
Proof.
  unfold self_contained. intros (C1 & L1 & F1) (C2 & L2 & F2).
  rewrite created_app, destroyed_app, files_opened_app, !length_app, F1, F2.
  repeat split; [| lia].
  intros x. rewrite !count_app, C1, C2. reflexivity.
Qed.

Lemma render_texts_spec (w : World) (n : nat) :
  forall st, exists st' delta,
    render_texts w n st = Ok tt st' /\ extends st st' delta /\
    self_contained delta.
Proof.
  induction n as [| n IH]; intros st.
  - exists st, []. split; [reflexivity |].
    split; [apply extends_refl | apply self_contained_nil].
  - cbn [render_texts]. unfold andthen.
    destruct (render_text_spec w st) as (b & st1 & d1 & H1 & E1 & S1 & _).
    rewrite H1. destruct (IH st1) as (st2 & d2 & H2 & E2 & S2).
    exists st2, (d1 ++ d2). split; [exact H2 |].
    split; [exact (extends_trans _ _ _ _ _ E1 E2) | now apply self_contained_app].
Qed.

Lemma render_frames_spec (w : World) (n : nat) :
  forall st, exists st' delta,
    render_frames w n st = Ok tt st' /\ extends st st' delta /\
    self_contained delta.
Proof.
  induction n as [| n IH]; intros st.
  - exists st, []. split; [reflexivity |].
    split; [apply extends_refl | apply self_contained_nil].
  - cbn [render_frames]. unfold andthen.
    destruct (render_texts_spec w 12 st) as (st1 & d1 & H1 & E1 & S1).
    rewrite H1. destruct (IH st1) as (st2 & d2 & H2 & E2 & S2).
    exists st2, (d1 ++ d2). split; [exact H2 |].
    split; [exact (extends_trans _ _ _ _ _ E1 E2) | now apply self_contained_app].
Qed.

Ltac load_step :=
  match goal with
  | |- context [load_shader ?w ?rel ?st] =>
      let v := fresh "v" in
      let st' := fresh "st" in
      let delta := fresh "delta" in
      let Heq := fresh "Heq" in
      let Hext := fresh "Hext" in
      let Hload := fresh "Hload" in
      destruct (load_shader_spec w rel st)
        as (v & st' & delta & Heq & Hext & Hload);
      rewrite Heq; clear Heq;
      destruct st' as [? ? ? ?];
      unfold extends in Hext; cbn [globals bin_dir_text log asked] in Hext;
      destruct Hext as (? & ? & ?); subst;
      cbn [globals bin_dir_text log asked] in Hload
  end.

Ltac use_loads :=
  repeat match goal with
  | H : shader_loaded _ _ _ |- _ => destruct H as (? & ? & ? & ? & ? & ?)
  end;
  repeat match goal with
  | Hnz : ?v <> 0%Z -> _, E : (?v =? 0)%Z = false |- _ =>
      destruct (Hnz (proj1 (Z.eqb_neq v 0) E)) as [? ?]; clear Hnz
  end.

Ltac use_counts :=
  repeat match goal with
  | E : (?h =? 0)%Z = true, H : context [nonnull ?k ?h] |- _ =>
      rewrite (nonnull_null k h E) in H; rewrite ?count_nil in H;
      cbn [List.length] in H
  end;
  repeat match goal with
  | x : (Kind * Z)%type, H : forall y : Kind * Z, _ |- _ => specialize (H x)
  end;
  repeat match goal with
  | H : fst ?x <> KHeap -> _, Hx : fst ?x <> KHeap |- _ => specialize (H Hx)
  end.

Ltac files_goal :=
  repeat match goal with
  | H : files_opened ?d = _ |- context [files_opened ?d] => rewrite H
  end;
  repeat match goal with
  | H : files_opened ?d = _ \/ _ |- context [files_opened ?d] =>
      destruct H as [H | H]; rewrite H
  end;
  unfold program_files; cbn [map app];
  first [ exists 0%nat; reflexivity | exists 1%nat; reflexivity
        | exists 2%nat; reflexivity | exists 3%nat; reflexivity ].

Ltac draws_goal :=
  repeat match goal with
  | H : existsb draws ?d = false |- _ => rewrite H
  end;
  reflexivity.

Ltac files_all :=
  repeat match goal with
  | H : files_opened ?d = _ |- context [files_opened ?d] => rewrite H
  end;
  reflexivity.

Ltac leaf :=
  use_loads;
  unfold sound_end, balanced_but; cbn [log globals]; unfold cleanup;
  cbn [set_global Global_eqb Global_index Nat.eqb];
  count_blocks; count_facts; repeat split;
  first [ files_goal | files_all | draws_goal
        | (intros; use_counts; count_goal) ].

Lemma initialise_spec (w : World) :
  match initialise w initial with
  | Ok _ st =>
      sound_end w st /\
      files_opened (log st) = program_files w /\
      List.length (created (log st ++ cleanup (globals st)))
      = (List.length (destroyed (log st ++ cleanup (globals st))) + 2)%nat
  | Exit code st => code = EXIT_FAILURE /\ sound_end w st
  end.
Proof.
  unfold initialise, initial. exec.
  repeat (first [split_if | rewrite get_absolute_path_eq | load_step]; exec).
  all: try (split; [reflexivity |]).
  all: leaf.
Qed.

Lemma quiet_release (v : Z) (c : Call) :
  files_opened [c] = [] -> draws c = false ->
  files_opened (release_if_set v c) = [] /\
  existsb draws (release_if_set v c) = false.
Proof.
  intros Hf Hd. unfold release_if_set. destruct (v =? 0)%Z; [now split |].
  split; [exact Hf | simpl; now rewrite Hd].
Qed.

Lemma cleanup_creates_nothing (gl : Globals) :
  created (cleanup gl) = [] /\ files_opened (cleanup gl) = [] /\
  existsb draws (cleanup gl) = false.
Proof.
  unfold cleanup. repeat split.
  - repeat rewrite ?created_app.
    repeat (rewrite created_release by reflexivity). reflexivity.
  - repeat rewrite ?files_opened_app.
    repeat match goal with
    | |- context [files_opened (release_if_set ?v ?c)] =>
        rewrite (proj1 (quiet_release v c eq_refl eq_refl))
    end. reflexivity.
  - repeat rewrite ?existsb_app.
    repeat match goal with
    | |- context [existsb draws (release_if_set ?v ?c)] =>
        rewrite (proj2 (quiet_release v c eq_refl eq_refl))
    end. reflexivity.
Qed.

Lemma balanced_insert (n : nat) (l1 delta l2 : list Call) :
  self_contained delta ->
  balanced_but n (l1 ++ l2) -> balanced_but n ((l1 ++ delta) ++ l2).
Proof.
  unfold self_contained, balanced_but.
  intros (C & L & _) (B1 & B2 & B3).
  rewrite !created_app, !destroyed_app, !length_app in *.
  repeat split.
  - intros x. specialize (B1 x). specialize (C x).
    rewrite !count_app in *. lia.
  - intros x Hx. specialize (B2 x Hx). specialize (C x).
    rewrite !count_app in *. lia.
  - lia.
Qed.

(** What a whole run comes to, by the two ways [main] can end. *)
Lemma run_cases (w : World) (frames : Frames) :
  (exists st,
     initialise w initial = Exit EXIT_FAILURE st /\ sound_end w st /\
     run w frames = (Some EXIT_FAILURE, log st ++ cleanup (globals st))) \/
  (exists st delta,
     initialise w initial = Ok tt st /\ sound_end w st /\
     files_opened (log st) = program_files w /\
     List.length (created (log st ++ cleanup (globals st)))
     = (List.length (destroyed (log st ++ cleanup (globals st))) + 2)%nat /\
     self_contained delta /\
     run w frames
     = (if any_event is_quit_signal frames then Some EXIT_SUCCESS else None,
        (log st ++ delta)
        ++ (if any_event is_quit_signal frames then cleanup (globals st)
            else []))).
Proof.
  pose proof (initialise_spec w) as Hinit.
  unfold run, main, andthen.
  destruct (initialise w initial) as [[] st | code st].
  - right. destruct Hinit as (Hsound & Hfiles & Hlen).
    unfold Camera.main. rewrite startup_ok. cbn [bind].
    destruct (main_loop_invariant frames initial_state initial_state_invariant
                eq_refl) as (r & Hr & _ & Hex).
    rewrite Hr.
    destruct (render_frames_spec w (List.length (rendered r)) st)
      as (st' & delta & Hrun & (Hg & _ & Hl) & Hself).
    rewrite Hrun. exists st, delta.
    split; [reflexivity |]. repeat (split; [assumption |]).
    rewrite <- Hex. destruct (exited r); unfold exit, ret.
    + now rewrite Hl, Hg.
    + now rewrite Hl, app_nil_r.
  - left. destruct Hinit as (-> & Hsound). exists st. auto.
Qed.

(** X23. [get_absolute_path] returns [NULL] exactly when [malloc] does;
    otherwise the buffer holds the base directory followed by the relative
    path in full: the size it asks for is enough, [snprintf] cuts nothing
    off.  It makes no other call and leaves the globals alone. *)
Theorem absolute_path_is_complete (w : World) (relative_path : String.string)
    (st : St) :
  exists p text st',
    get_absolute_path w relative_path st = Ok (p, text) st' /\
    extends st st' [malloc p] /\
    text = (if (p =? 0)%Z then String.EmptyString
            else String.append (bin_dir_text st) relative_path) /\
    String.length text
    = (if (p =? 0)%Z then O
       else String.length (bin_dir_text st) + String.length relative_path)%nat.
Proof.
  rewrite get_absolute_path_eq. eexists. eexists. eexists.
  split; [reflexivity |]. split; [now unfold extends |].
  split; [reflexivity |].
  destruct (answer w (asked st) =? 0)%Z; [reflexivity | apply append_length].
Qed.

(** X24. [load_shader] leaves the globals alone and cleans up after itself
    on every path: the path buffer is freed, an opened file is closed, a
    shader that does not compile is deleted.  What remains is the shader it
    returns and at most one heap block; when it returns a shader, exactly
    that shader and one heap block remain (the buffer the source was read
    into is never freed).  The only file it opens is the base directory
    followed by the relative path, and it has opened it whenever it returns
    a shader. *)
Theorem load_shader_resources (w : World) (relative_path : String.string)
    (st : St) :
  exists v st' delta,
    load_shader w relative_path st = Ok v st' /\
    extends st st' delta /\
    shader_loaded (String.append (bin_dir_text st) relative_path) v delta.
Proof. apply load_shader_spec. Qed.

(** X25. [render_text] destroys every surface and texture it creates, on
    every path, and returns [true] exactly when both were created. *)
Theorem render_text_resources (w : World) (st : St) :
  exists b st' delta,
    render_text w st = Ok b st' /\ extends st st' delta /\
    self_contained delta /\
    (b = true <->
     answer w (asked st) <> 0%Z /\ answer w (S (asked st)) <> 0%Z).
Proof. apply render_text_spec. Qed.

(** X26. When the process has exited, whatever the libraries answered and
    whatever the events were: nothing was destroyed more often than it was
    created (the shaders deleted after linking are not deleted again by
    [cleanup]); everything but heap blocks was destroyed as often as it was
    created; at most two heap blocks are left, and after a successful run
    exactly two (the two shader sources). *)
Theorem process_releases_what_it_acquires (w : World) (frames : Frames)
    (code : Z) (calls : list Call) :
  run w frames = (Some code, calls) ->
  balanced_but 2 calls /\
  (code = EXIT_SUCCESS ->
   List.length (created calls) = (List.length (destroyed calls) + 2)%nat).
Proof.
  intros Hrun.
  destruct (run_cases w frames)
    as [(st & _ & Hsound & Heq)
       | (st & delta & _ & Hsound & _ & Hlen & Hself & Heq)];
    rewrite Heq in Hrun.
  - injection Hrun as <- <-. split; [apply Hsound |]. discriminate.
  - destruct (any_event is_quit_signal frames); [| discriminate].
    injection Hrun as <- <-.
    split; [apply balanced_insert; [exact Hself | apply Hsound] |].
    intros _. destruct Hself as (_ & L & _).
    rewrite !created_app, !destroyed_app, !length_app in *. lia.
Qed.

Lemma process_releases_what_it_acquires_witness :
  balanced_but 2 (snd (run example_world [])) /\
  (EXIT_FAILURE = EXIT_SUCCESS ->
   List.length (created (snd (run example_world [])))
   = (List.length (destroyed (snd (run example_world []))) + 2)%nat).
Proof.
  apply (process_releases_what_it_acquires example_world [] EXIT_FAILURE).
  vm_compute. reflexivity.
Defined.

(** X27. The files a run opens are the first of: the font, the vertex
    shader and the fragment shader, each at the base directory followed by
    its relative path, in this order; unless the run ended in
    [EXIT_FAILURE], all three were opened. *)
Theorem process_opens_its_three_files (w : World) (frames : Frames) :
  (exists n, files_opened (snd (run w frames)) = firstn n (program_files w)) /\
  (fst (run w frames) = Some EXIT_FAILURE \/
   files_opened (snd (run w frames)) = program_files w).
Proof.
  destruct (run_cases w frames)
    as [(st & _ & Hsound & Heq)
       | (st & delta & _ & Hsound & Hfiles & _ & Hself & Heq)];
    rewrite Heq; cbn [fst snd].
  - destruct Hsound as (_ & (n & Hn) & _).
    rewrite files_opened_app, (proj1 (proj2 (cleanup_creates_nothing _))),
      app_nil_r.
    split; [now exists n | now left].
  - destruct Hself as (_ & _ & Hd).
    assert (E : files_opened
                  ((log st ++ delta)
                   ++ (if any_event is_quit_signal frames
                       then cleanup (globals st) else []))
                = program_files w).
    { rewrite !files_opened_app, Hd, Hfiles.
      destruct (any_event is_quit_signal frames);
        [rewrite (proj1 (proj2 (cleanup_creates_nothing _))) |];
        now rewrite !app_nil_r. }
    rewrite E. split; [now exists 3%nat | now right].
Qed.

(** X28. [main] returns [EXIT_FAILURE] or [EXIT_SUCCESS] and nothing else.
    When it returns [EXIT_FAILURE] no text was ever drawn: the loop was not
    entered.  It returns [EXIT_SUCCESS] only after a quit signal, and when
    the frames are used up with the loop still running there was none. *)
Theorem exit_code_meaning (w : World) (frames : Frames) :
  match fst (run w frames) with
  | Some code =>
      (code = EXIT_FAILURE /\ existsb draws (snd (run w frames)) = false) \/
      (code = EXIT_SUCCESS /\ has_quit_signal frames)
  | None => ~ has_quit_signal frames
  end.
Proof.
  destruct (run_cases w frames)
    as [(st & _ & Hsound & Heq)
       | (st & delta & _ & _ & _ & _ & _ & Heq)];
    rewrite Heq; cbn [fst snd].
  - left. split; [reflexivity |].
    rewrite existsb_app, (proj2 (proj2 (cleanup_creates_nothing _))).
    destruct Hsound as (_ & _ & ->). reflexivity.
  - destruct (any_event is_quit_signal frames) eqn:E.
    + right. split; [reflexivity |]. now apply any_event_spec.
    + intros H. apply any_event_spec in H. congruence.
Qed.
